(** * Q1.15 quantisation of GAN parameters

    A shallow embedding of the two Python quantisers of the repository,
    [float_to_q15_hex] of [scripts/convert_params_to_hex.py] and
    [convert_to_fixed_point_q15] / [save_q15_hex] of
    [parameters/extract_gan_parameters.py], over the IEEE 754 binary64
    specification of the Standard Library ([SpecFloat]), together with the
    properties the specification states about them. *)

From Stdlib Require Import ZArith QArith Qround Qpower Qabs Lia Lqa Bool List.
From Stdlib Require Import String Ascii DecimalString.
From Stdlib Require Import Floats.SpecFloat.
Import ListNotations.

Local Open Scope Z_scope.

(** ** Python floats: IEEE 754 binary64 *)

Module PyFloat.

(** A Python [float] is a binary64: 53 bits of precision, infinities at
    exponent 1024.  A value of type [spec_float] is a Python float when
    it is [valid]: its mantissa and exponent are the canonical ones. *)
Definition prec : Z := 53.
Definition emax : Z := 1024.

Definition float := spec_float.

Definition valid (x : float) : bool := valid_binary prec emax x.

Definition is_nan (x : float) : bool :=
  match x with S754_nan => true | _ => false end.

Definition is_finite (x : float) : bool :=
  match x with
  | S754_zero _ | S754_finite _ _ _ => true
  | _ => false
  end.

(** [a < b] and [a * b] on floats. *)
Definition flt (a b : float) : bool := SFltb a b.
Definition fmul (a b : float) : float := SFmul prec emax a b.

(** The exact rational value of a float that is not an infinity or a
    NaN: (-1)^s * m * 2^e. *)
Definition SF2Q (x : float) : Q :=
  match x with
  | S754_finite s m e => (inject_Z (cond_Zopp s (Zpos m)) * (2 # 1) ^ e)%Q
  | _ => 0%Q
  end.

(** Rounding of a rational to the nearest integer, ties to the even
    one. *)
Definition round_half_even (q : Q) : Z :=
  let f := Qfloor q in
  match (q - inject_Z f ?= 1 # 2)%Q with
  | Lt => f
  | Eq => if Z.even f then f else f + 1
  | Gt => f + 1
  end.

(** The builtin [min(a, b)]: [b] replaces [a] when [b < a]. *)
Definition py_min (a b : float) : float := if flt b a then b else a.

(** The builtin [max(a, b)]: [b] replaces [a] when [b > a]. *)
Definition py_max (a b : float) : float := if flt a b then b else a.

(** The builtin [round(x)] of a float, without [ndigits]: the integer
    nearest to the value of [x], ties to even; it raises [ValueError] on
    a NaN and [OverflowError] on an infinity ([None] here). *)
Definition py_round (x : float) : option Z :=
  match x with
  | S754_nan | S754_infinity _ => None
  | _ => Some (round_half_even (SF2Q x))
  end.

(** The float of an integer that a double holds exactly. *)
Definition of_Z (n : Z) : float := binary_normalize prec emax n 0 false.

(** The literals of the two scripts. *)
Definition f_minus_one : float := S754_finite true 4503599627370496 (-52).
Definition f_32768 : float := S754_finite false 4503599627370496 (-37).
(** 0.999969482421875 = 32767 / 32768 *)
Definition f_q15_max : float := S754_finite false 9006924376834048 (-53).
(** 0.999969: the double nearest to 999969 / 1000000 *)
Definition f_0_999969 : float := S754_finite false 9006920031564095 (-53).

End PyFloat.

(** ** Text: hexadecimal formatting, whitespace splitting *)

Module PyStr.

Local Open Scope string_scope.
Local Open Scope Z_scope.

Definition hex_digit (d : Z) : ascii :=
  match d with
  | 0 => "0" | 1 => "1" | 2 => "2" | 3 => "3" | 4 => "4" | 5 => "5"
  | 6 => "6" | 7 => "7" | 8 => "8" | 9 => "9" | 10 => "A" | 11 => "B"
  | 12 => "C" | 13 => "D" | 14 => "E" | _ => "F"
  end%char.

(** The uppercase hexadecimal digits of a natural number, most
    significant first, added in front of [acc]. *)
Fixpoint hex_digits (fuel : nat) (n : Z) (acc : string) : string :=
  match fuel with
  | O => acc
  | S fuel' =>
      let acc' := String (hex_digit (n mod 16)) acc in
      if n / 16 =? 0 then acc' else hex_digits fuel' (n / 16) acc'
  end.

Definition upper_hex (n : Z) : string :=
  hex_digits (S (Z.to_nat (Z.log2 n))) n "".

Fixpoint zeros (k : nat) : string :=
  match k with O => "" | S k' => String "0" (zeros k') end.

(** [s.zfill(w)] for a string of digits. *)
Definition zfill (w : nat) (s : string) : string :=
  zeros (w - String.length s) ++ s.

(** [format(n, '04X')]: uppercase hexadecimal, padded with zeros after
    the sign to a width of 4. *)
Definition format_04X (n : Z) : string :=
  if n <? 0 then String "-" (zfill 3 (upper_hex (- n)))
  else zfill 4 (upper_hex n).

Definition is_upper_hex (c : ascii) : bool :=
  let n := N_of_ascii c in
  ((48 <=? n) && (n <=? 57) || (65 <=? n) && (n <=? 70))%N.

Fixpoint all_chars (p : ascii -> bool) (s : string) : bool :=
  match s with
  | EmptyString => true
  | String c s' => p c && all_chars p s'
  end.

(** The value of a string of uppercase hexadecimal digits. *)
Definition hex_value (c : ascii) : Z :=
  let n := Z.of_N (N_of_ascii c) in
  if n <=? 57 then n - 48 else n - 55.

Fixpoint parse_hex_from (acc : Z) (s : string) : Z :=
  match s with
  | EmptyString => acc
  | String c s' => parse_hex_from (16 * acc + hex_value c) s'
  end.

Definition parse_hex (s : string) : Z := parse_hex_from 0 s.

(** Whitespace as [str.strip] and [str.split] see it, on one-byte
    characters. *)
Definition is_space (c : ascii) : bool :=
  let n := N_of_ascii c in
  ((9 <=? n) && (n <=? 13) || (28 <=? n) && (n <=? 32))%N.

Fixpoint lstrip (s : string) : string :=
  match s with
  | String c s' => if is_space c then lstrip s' else s
  | EmptyString => EmptyString
  end.

Fixpoint rev_onto (s acc : string) : string :=
  match s with
  | EmptyString => acc
  | String c s' => rev_onto s' (String c acc)
  end.

Definition rstrip (s : string) : string :=
  rev_onto (lstrip (rev_onto s "")) "".

Definition strip (s : string) : string := rstrip (lstrip s).

(** [s.split()]: the maximal runs of characters that are not
    whitespace.  [cur] holds the run being read, reversed. *)
Fixpoint split_from (cur : string) (s : string) : list string :=
  match s with
  | EmptyString =>
      match cur with EmptyString => [] | _ => [rev_onto cur ""] end
  | String c s' =>
      if is_space c then
        match cur with
        | EmptyString => split_from "" s'
        | _ => rev_onto cur "" :: split_from "" s'
        end
      else split_from (String c cur) s'
  end.

Definition split (s : string) : list string := split_from "" s.

(** [str(n)] of a natural number. *)
Definition str_of_nat (n : nat) : string :=
  NilEmpty.string_of_uint (Nat.to_uint n).

End PyStr.

(** ** scripts/convert_params_to_hex.py *)

Module ConvertParamsToHex.
Import PyFloat PyStr.

(** [value = max(-1.0, min(value, 0.999969482421875))] *)
Definition clamp (value : float) : float :=
  py_max f_minus_one (py_min value f_q15_max).

(** [int(round(value * 32768))] *)
Definition scale_round (value : float) : option Z :=
  py_round (fmul value f_32768).

(** The [if q15_val > 32767 ... elif q15_val < -32768 ...] guard. *)
Definition handle_overflow (q15_val : Z) : Z :=
  if q15_val >? 32767 then 32767
  else if q15_val <? -32768 then -32768
  else q15_val.

(** [if q15_val < 0: q15_val = q15_val + 65536] *)
Definition to_unsigned (q15_val : Z) : Z :=
  if q15_val <? 0 then q15_val + 65536 else q15_val.

(** The unsigned word that [float_to_q15_hex] formats. *)
Definition q15_word (value : float) : option Z :=
  match scale_round (clamp value) with
  | None => None
  | Some q15_val => Some (to_unsigned (handle_overflow q15_val))
  end.

Definition float_to_q15_hex (value : float) : option string :=
  match q15_word value with
  | None => None
  | Some q15_val => Some (format_04X q15_val)
  end.


(** *** [convert_file]

    The input file is read as its list of lines; [float(token)] is the
    parameter [parse_float] ([None] when it raises [ValueError]).  The
    result holds the text written to the output file and the lines
    printed; it is [None] when an exception leaves the function. *)
Section ConvertFile.
Variable parse_float : string -> option float.

Local Open Scope string_scope.

Record reading := { values : list float; printed : list string }.

Definition warning (token input_path : string) : string :=
  "Warning: Could not parse '" ++ token ++ "' in " ++ input_path.

(** The body of the loop over the tokens of a line. *)
Definition read_token (input_path : string) (st : reading)
    (token : string) : reading :=
  match token with
  | EmptyString => st
  | _ =>
      match parse_float token with
      | Some val =>
          {| values := values st ++ [val]; printed := printed st |}
      | None =>
          {| values := values st;
             printed := printed st ++ [warning token input_path] |}
      end
  end.

Definition read_line (input_path : string) (st : reading)
    (line : string) : reading :=
  fold_left (read_token input_path) (split (strip line)) st.

Definition read_file (input_path : string) (lines : list string)
    : reading :=
  fold_left (read_line input_path) lines
    {| values := []; printed := [] |}.

(** The loop that writes [hex_val + '\n'] for each value, after the
    text [written] so far. *)
Fixpoint write_values (vals : list float) (written : string)
    : option string :=
  match vals with
  | [] => Some written
  | val :: rest =>
      match float_to_q15_hex val with
      | None => None
      | Some hex_val =>
          write_values rest (written ++ hex_val ++ String "010" "")
      end
  end.

Record converted := { out_file : string; stdout : list string }.

Definition convert_file (input_path output_path : string)
    (lines : list string) : option converted :=
  let st := read_file input_path lines in
  match write_values (values st) "" with
  | None => None
  | Some text =>
      Some {| out_file := text;
              stdout := printed st ++
                ["Converted " ++ input_path ++ " -> " ++ output_path
                 ++ " (" ++ str_of_nat (List.length (values st))
                 ++ " values)"] |}
  end.
End ConvertFile.

End ConvertParamsToHex.

(** ** parameters/extract_gan_parameters.py *)

Module ExtractGanParameters.
Import PyFloat PyStr.

(** NumPy's element-wise maximum and minimum inside [np.clip]: a NaN
    element stays a NaN. *)
Definition np_max (a b : float) : float :=
  if is_nan a then a else if flt b a then a else b.

Definition np_min (a b : float) : float :=
  if is_nan a then a else if flt a b then a else b.

(** [np.clip(a, a_min, a_max)] on one element. *)
Definition np_clip (a a_min a_max : float) : float :=
  np_min (np_max a a_min) a_max.

(** [np.round] on one element: the integral double nearest to it, ties
    to even, with the sign of the element when the result is zero. *)
Definition np_round (x : float) : float :=
  match x with
  | S754_finite s _ _ =>
      match round_half_even (SF2Q x) with
      | 0 => S754_zero s
      | n => of_Z n
      end
  | _ => x
  end.

(** [.astype(np.int16)] on one element: the value truncated towards
    zero; the conversion is undefined ([None]) for a NaN, an infinity
    and a value outside the 16-bit range. *)
Definition astype_int16 (x : float) : option Z :=
  match x with
  | S754_nan | S754_infinity _ => None
  | _ =>
      let t := (Qnum (SF2Q x) ÷ Zpos (Qden (SF2Q x))) in
      if (-32768 <=? t) && (t <=? 32767) then Some t else None
  end.

Definition convert_to_fixed_point_q15 (value : float) : option Z :=
  let value := np_clip value f_minus_one f_0_999969 in
  astype_int16 (np_round (fmul value f_32768)).

(** One line of [save_q15_hex]: [int(val) & 0xFFFF] printed with
    [04X]. *)
Definition hex_of_int16 (val : Z) : string :=
  format_04X (Z.land val 65535).

Definition q15_hex (value : float) : option string :=
  match convert_to_fixed_point_q15 value with
  | None => None
  | Some val => Some (hex_of_int16 val)
  end.

(** The text [save_q15_hex] writes for the flattened array [arr]. *)
Fixpoint save_q15_hex (arr : list float) : option string :=
  match arr with
  | [] => Some EmptyString
  | value :: rest =>
      match q15_hex value, save_q15_hex rest with
      | Some hex_val, Some text =>
          Some (hex_val ++ String "010" text)%string
      | _, _ => None
      end
  end.

End ExtractGanParameters.

(** ** The quantizer as the specification words it, on exact numbers *)

Module QuantizerSpec.
Import PyFloat PyStr.

Definition q15_max : Q := 32767 # 32768.

(** Step 1: clamping to [-1.0, 0.999969482421875]. *)
Definition clamp (value : Q) : Q :=
  if Qle_bool (-1) value then
    if Qle_bool value q15_max then value else q15_max
  else (-1)%Q.

(** Step 3: the secondary overflow guard. *)
Definition guard (n : Z) : Z :=
  if 32767 <? n then 32767 else if n <? -32768 then -32768 else n.

(** Step 4: two's-complement encoding. *)
Definition encode (n : Z) : Z := if n <? 0 then n + 65536 else n.

(** An integer nearest to [q]. *)
Definition nearest_integer (q : Q) (n : Z) : Prop :=
  (Qabs (inject_Z n - q) <= 1 # 2)%Q.

(** Steps 1 to 4, rounding ties to even in step 2. *)
Definition quantize (value : Q) : Z :=
  encode (guard (round_half_even (clamp value * 32768))).

(** A 4-character uppercase hexadecimal string, zero-padded. *)
Definition format_hex (word : Z) : string :=
  String (hex_digit (word / 4096 mod 16))
    (String (hex_digit (word / 256 mod 16))
       (String (hex_digit (word / 16 mod 16))
          (String (hex_digit (word mod 16)) EmptyString))).

Definition quantize_sequence (values : list Q) : list string :=
  map (fun v => format_hex (quantize v)) values.

(** Decoding a word to the number it stands for. *)
Definition decode (word : Z) : Q :=
  (inject_Z (if 32768 <=? word then word - 65536 else word) / 32768)%Q.

End QuantizerSpec.

(** ** What [convert_file] is expected to read and to write *)

Module ConvertFileSpec.
Import PyFloat PyStr.

(** The whitespace-delimited tokens of a file, in reading order. *)
Definition tokens (lines : list string) : list string :=
  flat_map (fun line => split (strip line)) lines.

Section Parsing.
Variable parse_float : string -> option float.

(** The values of the tokens that parse, in input order. *)
Fixpoint parsed (toks : list string) : list float :=
  match toks with
  | [] => []
  | EmptyString :: rest => parsed rest
  | tok :: rest =>
      match parse_float tok with
      | Some val => val :: parsed rest
      | None => parsed rest
      end
  end.

(** The tokens that do not parse, in input order. *)
Fixpoint malformed (toks : list string) : list string :=
  match toks with
  | [] => []
  | EmptyString :: rest => malformed rest
  | tok :: rest =>
      match parse_float tok with
      | Some _ => malformed rest
      | None => tok :: malformed rest
      end
  end.
End Parsing.

(** A text file of the given lines, each ended by a newline. *)
Fixpoint unlines (ls : list string) : string :=
  match ls with
  | [] => EmptyString
  | l :: rest => (l ++ String "010" (unlines rest))%string
  end.

End ConvertFileSpec.

(** ** Sample inputs *)

Module Samples.
Import PyFloat.

(** 0.0, 0.5, -0.5, 1.5 and -2.0 *)
Definition f_zero : float := S754_zero false.
Definition f_half : float := S754_finite false 4503599627370496 (-53).
Definition f_minus_half : float := S754_finite true 4503599627370496 (-53).
Definition f_1_5 : float := S754_finite false 6755399441055744 (-52).
Definition f_minus_two : float := S754_finite true 4503599627370496 (-51).

(** 1/65536 and 3/65536: scaled by 32768 they are 0.5 and 1.5. *)
Definition f_1_65536 : float := S754_finite false 4503599627370496 (-68).
Definition f_3_65536 : float := S754_finite false 6755399441055744 (-67).

Definition f_nan : float := S754_nan.
Definition f_inf : float := S754_infinity false.
Definition f_minus_inf : float := S754_infinity true.

(** A [float()] that knows three tokens, for running [convert_file]. *)
Definition parse_sample (token : string) : option float :=
  if String.eqb token "0.5" then Some f_half
  else if String.eqb token "-0.5" then Some f_minus_half
  else if String.eqb token "nan" then Some f_nan
  else None.

End Samples.

(** ** Exhaustive checks over a range of integers *)

Module Ranges.

(** [p] holds on the [n] integers from [k] on. *)
Fixpoint all_from (p : Z -> bool) (k : Z) (n : nat) : bool :=
  match n with
  | O => true
  | S n' => p k && all_from p (k + 1) n'
  end.

End Ranges.

(** ** Paths, files and formatted numbers *)

Module PySys.
Import PyFloat PyStr.

Local Open Scope string_scope.





(** [f'{i:02d}'] for an index [i] of [range] or [enumerate]. *)
Definition format_02d (i : nat) : string := zfill 2 (str_of_nat i).

(** The lines a text file yields when it is iterated in text mode: a
    line ends after a newline, which a carriage return or a carriage
    return and a line feed also stand for.  [cur] holds the line being
    read, reversed. *)
Fixpoint lines_from (cur : string) (s : string) : list string :=
  match s with
  | EmptyString =>
      match cur with EmptyString => [] | _ => [rev_onto cur ""] end
  | String c s' =>
      if Ascii.eqb c "010" then
        rev_onto (String "010" cur) "" :: lines_from "" s'
      else if Ascii.eqb c "013" then
        match s' with
        | String "010" s'' =>
            rev_onto (String "010" cur) "" :: lines_from "" s''
        | _ => rev_onto (String "010" cur) "" :: lines_from "" s'
        end
      else lines_from (String c cur) s'
  end.

Definition file_lines (text : string) : list string := lines_from "" text.



End PySys.

(** ** Tokens *)

Module TokenSpec.
Import PyStr.

Local Open Scope string_scope.

(** A token: not empty, no whitespace in it. *)
Definition is_token (t : string) : Prop :=
  t <> "" /\ all_chars (fun c => negb (is_space c)) t = true.

(** What [split_from] gives for the token being read when the token
    ends. *)
Definition flush (cur : string) : list string :=
  match cur with EmptyString => [] | _ => [rev_onto cur ""] end.

End TokenSpec.

(** ** scripts/convert_params_to_hex.py: [main] *)

Module ConvertParamsMain.
Import PyFloat PyStr PySys ConvertParamsToHex.

Local Open Scope string_scope.


(** The eight parameter files, then the ten files of the loop
    [for i in range(10)]. *)
Definition param_files : list string :=
  fold_left
    (fun files i =>
       List.app files ["input_sample_" ++ format_02d i ++ ".txt"])
    (seq 0 10)
    ["Wg2.txt"; "bg2.txt"; "Wg3.txt"; "bg3.txt";
     "Wd2.txt"; "bd2.txt"; "Wd3.txt"; "bd3.txt"].

Section Main.
Variable parse_float : string -> option float.










End Main.

End ConvertParamsMain.

(** ** parameters/extract_gan_parameters.py: loading and saving *)

Module ExtractGanFiles.
Import PyFloat PyStr PySys ExtractGanParameters.

Local Open Scope string_scope.

(** A two-dimensional array, by rows. *)
Definition matrix := list (list float).

(** [arr.flatten()] and [arr.reshape(1, -1)] *)
Definition flatten (arr : matrix) : list float := List.concat arr.
Definition reshape_row (arr : matrix) : matrix := [List.concat arr].

(** *** [load_trained_model] *)

Inductive load_error :=
| FileNotFoundError
| KeyError (key : string).

Definition result (A : Type) : Type := load_error + A.

Definition bind {A B : Type} (r : result A) (k : A -> result B)
    : result B :=
  match r with
  | inl e => inl e
  | inr a => k a
  end.

Local Notation "x <- r ;; k" := (bind r (fun x => k))
  (at level 61, r at next level, right associativity).

Record generator_params :=
  { Wg2 : matrix; bg2 : matrix; Wg3 : matrix; bg3 : matrix }.

Record discriminator_params :=
  { Wd2 : matrix; bd2 : matrix; Wd3 : matrix; bd3 : matrix }.

Record gan_params :=
  { generator : generator_params; discriminator : discriminator_params }.

(** What [loadmat] returns: the arrays of the file, by name. *)
Definition mat_data := string -> option matrix.

(** [data[key]] *)
Definition get (data : mat_data) (key : string) : result matrix :=
  match data key with
  | Some arr => inr arr
  | None => inl (KeyError key)
  end.

(** [loadmat(mat_file)] is the parameter [loadmat]: [None] when the file
    is not found.  The result comes with the line printed before the file
    is opened. *)
Definition load_trained_model (loadmat : string -> option mat_data)
    (mat_file : string) : list string * result gan_params :=
  (["Loading trained model from " ++ mat_file ++ "..."],
   match loadmat mat_file with
   | None => inl FileNotFoundError
   | Some data =>
       g2 <- get data "Wg2" ;;
       b2 <- get data "bg2" ;;
       g3 <- get data "Wg3" ;;
       b3 <- get data "bg3" ;;
       d2 <- get data "Wd2" ;;
       c2 <- get data "bd2" ;;
       d3 <- get data "Wd3" ;;
       c3 <- get data "bd3" ;;
       inr {| generator := {| Wg2 := g2; bg2 := b2; Wg3 := g3; bg3 := b3 |};
              discriminator :=
                {| Wd2 := d2; bd2 := c2; Wd3 := d3; bd3 := c3 |} |}
   end).

(** *** Text files: [np.savetxt] with [fmt='%.8f'] *)

Definition digits_of_N (n : N) : string :=
  NilEmpty.string_of_uint (N.to_uint n).

(** ['%.8f' % x]: the value rounded to 8 decimals, ties to even, after
    the sign of the double. *)
Definition fmt_8f (x : float) : string :=
  match x with
  | S754_nan => "nan"
  | S754_infinity s => if s then "-inf" else "inf"
  | S754_zero s | S754_finite s _ _ =>
      let n := Z.to_N (round_half_even (Qabs (SF2Q x) * 100000000)) in
      (if s then "-" else "")
      ++ digits_of_N (n / 100000000) ++ "."
      ++ zfill 8 (digits_of_N (n mod 100000000))
  end.

(** [' '.join(row)] *)
Fixpoint join_spaces (row : list string) : string :=
  match row with
  | [] => ""
  | [v] => v
  | v :: rest => v ++ " " ++ join_spaces rest
  end.

(** The text [np.savetxt(fname, X, fmt='%.8f')] writes: one line per
    row, the values of a row separated by a space. *)
Fixpoint savetxt (X : matrix) : string :=
  match X with
  | [] => ""
  | row :: rest =>
      join_spaces (map fmt_8f row) ++ String "010" (savetxt rest)
  end.

(** What a function does to the outside, in order. *)
Inductive event :=
| Prints (line : string)
| Writes (path text : string).

Definition save_parameters_to_txt (params : gan_params)
    (output_dir : string) : list event :=
  [ Prints (String "010" "=== Saving parameters to text files ===");
    Writes (output_dir ++ "Wg2.txt") (savetxt (Wg2 (generator params)));
    Writes (output_dir ++ "bg2.txt") (savetxt (bg2 (generator params)));
    Writes (output_dir ++ "Wg3.txt") (savetxt (Wg3 (generator params)));
    Writes (output_dir ++ "bg3.txt") (savetxt (bg3 (generator params)));
    Writes (output_dir ++ "Wd2.txt") (savetxt (Wd2 (discriminator params)));
    Writes (output_dir ++ "bd2.txt") (savetxt (bd2 (discriminator params)));
    Writes (output_dir ++ "Wd3.txt") (savetxt (Wd3 (discriminator params)));
    Writes (output_dir ++ "bd3.txt")
      (savetxt (reshape_row (bd3 (discriminator params))));
    Prints ("Parameters saved to " ++ output_dir) ].

(** *** Hexadecimal files *)

(** The inner [save_q15_hex(arr, filename)] of
    [save_parameters_to_q15_hex]; [None] when a conversion is undefined. *)
Definition save_q15_hex_file (arr : matrix) (filename : string)
    : option event :=
  match save_q15_hex (flatten arr) with
  | None => None
  | Some text => Some (Writes filename text)
  end.

Fixpoint sequence {A : Type} (l : list (option A)) : option (list A) :=
  match l with
  | [] => Some []
  | None :: _ => None
  | Some a :: rest =>
      match sequence rest with
      | None => None
      | Some r => Some (a :: r)
      end
  end.

Definition save_parameters_to_q15_hex (params : gan_params)
    (output_dir : string) : option (list event) :=
  match sequence
    [ save_q15_hex_file (Wg2 (generator params)) (output_dir ++ "Wg2_q15.hex");
      save_q15_hex_file (bg2 (generator params)) (output_dir ++ "bg2_q15.hex");
      save_q15_hex_file (Wg3 (generator params)) (output_dir ++ "Wg3_q15.hex");
      save_q15_hex_file (bg3 (generator params)) (output_dir ++ "bg3_q15.hex");
      save_q15_hex_file (Wd2 (discriminator params))
        (output_dir ++ "Wd2_q15.hex");
      save_q15_hex_file (bd2 (discriminator params))
        (output_dir ++ "bd2_q15.hex");
      save_q15_hex_file (Wd3 (discriminator params))
        (output_dir ++ "Wd3_q15.hex");
      save_q15_hex_file (bd3 (discriminator params))
        (output_dir ++ "bd3_q15.hex") ]
  with
  | None => None
  | Some writes =>
      Some (List.app
              (Prints (String "010"
                        "=== Saving parameters in Q1.15 hex format ===")
               :: writes)
              [Prints ("Q1.15 hex parameters saved to " ++ output_dir)])
  end.

(** *** [save_sample_inputs] *)

(** The lines [f"{hex_val:04X}\n"] for the values of an [int16] array;
    [None] when a value is undefined. *)
Fixpoint hex_lines (vals : list (option Z)) : option string :=
  match vals with
  | [] => Some ""
  | None :: _ => None
  | Some val :: rest =>
      match hex_lines rest with
      | None => None
      | Some text => Some (hex_of_int16 val ++ String "010" text)
      end
  end.

(** The loop bodies, for the sample of index [i]. *)
Definition sample_txt (output_dir : string) (i : nat) (sample : matrix)
    : event :=
  Writes (output_dir ++ "input_sample_" ++ format_02d i ++ ".txt")
        (savetxt sample).

Definition sample_hex (output_dir : string) (i : nat) (sample : matrix)
    : option event :=
  let q15_sample := map (map convert_to_fixed_point_q15) sample in
  match hex_lines (List.concat q15_sample) with
  | None => None
  | Some text =>
      Some (Writes (output_dir ++ "input_sample_" ++ format_02d i ++ "_q15.hex")
                  text)
  end.

(** [enumerate(samples)] *)
Definition enumerate {A : Type} (l : list A) : list (nat * A) :=
  combine (seq 0 (List.length l)) l.

Definition save_sample_inputs (samples : list matrix) (output_dir : string)
    : option (list event) :=
  match sequence
          (map (fun '(i, sample) => sample_hex output_dir i sample)
               (enumerate samples))
  with
  | None => None
  | Some hex_writes =>
      Some (Prints (String "010" "=== Saving "
                   ++ str_of_nat (List.length samples)
                   ++ " sample inputs ===")
            :: List.app
                 (map (fun '(i, sample) => sample_txt output_dir i sample)
                      (enumerate samples))
                 (List.app hex_writes
                    [Prints ("Sample inputs saved to " ++ output_dir)]))
  end.

(** *** What the functions are expected to read and to write *)

(** The keys [load_trained_model] reads, in the order it reads them. *)
Definition mat_keys : list string :=
  ["Wg2"; "bg2"; "Wg3"; "bg3"; "Wd2"; "bd2"; "Wd3"; "bd3"].

Definition is_missing (data : mat_data) (key : string) : bool :=
  match data key with None => true | Some _ => false end.

(** The arrays of the parameters with their names, in the order of
    [mat_keys]. *)
Definition param_arrays (params : gan_params) : list (string * matrix) :=
  [ ("Wg2", Wg2 (generator params)); ("bg2", bg2 (generator params));
    ("Wg3", Wg3 (generator params)); ("bg3", bg3 (generator params));
    ("Wd2", Wd2 (discriminator params)); ("bd2", bd2 (discriminator params));
    ("Wd3", Wd3 (discriminator params)); ("bd3", bd3 (discriminator params)) ].

(** The paths of the files written, in order. *)
Definition written_paths (events : list event) : list string :=
  flat_map (fun e => match e with Writes path _ => [path] | Prints _ => [] end)
    events.

End ExtractGanFiles.

(** ** The doubles of the Q1.15 grid *)

Module Grid.
Import PyFloat.

(** The double of value [k / 32768]. *)
Definition q15_float (k : Z) : float :=
  binary_normalize prec emax k (-15) false.

End Grid.

(** ** Sample parameters *)

Module SampleParams.
Import PyFloat Samples ExtractGanFiles.

(** Parameters with one or two elements in each array. *)
Definition small_params : gan_params :=
  {| generator :=
       {| Wg2 := [[f_half; f_minus_half]]; bg2 := [[f_zero]];
          Wg3 := [[f_1_5]; [f_minus_two]]; bg3 := [[f_inf]] |};
     discriminator :=
       {| Wd2 := [[f_q15_max]]; bd2 := [[f_minus_one]];
          Wd3 := [[f_1_65536; f_3_65536]]; bd3 := [[f_half]] |} |}.

(** A [float()] for what ['%.8f'] prints for 0.5, -0.5 and 1.5. *)
Definition parse_printed (token : string) : option float :=
  if String.eqb token "0.50000000" then Some f_half
  else if String.eqb token "-0.50000000" then Some f_minus_half
  else if String.eqb token "1.50000000" then Some f_1_5
  else None.

(** Ten samples of two rows and one column. *)
Definition ten_samples : list matrix :=
  repeat [[f_half]; [f_minus_two]] 10.

End SampleParams.

(** * Proofs *)

Import PyFloat PyStr ConvertParamsToHex ExtractGanParameters.
Import ConvertFileSpec Samples.

(** ** Binary64: digits, canonical forms, exact products *)

Module Binary64Facts.

Lemma digits2_pos_bounds m :
  2 ^ (Zpos (digits2_pos m) - 1) <= Zpos m < 2 ^ Zpos (digits2_pos m).
Proof.
  induction m as [m IH | m IH | ]; cbn [digits2_pos].
  - rewrite Pos2Z.inj_succ.
    replace (Z.succ (Zpos (digits2_pos m)) - 1) with (Z.succ (Zpos (digits2_pos m) - 1)) by lia.
    rewrite !Z.pow_succ_r by lia.
    change (Zpos m~1) with (2 * Zpos m + 1). lia.
  - rewrite Pos2Z.inj_succ.
    replace (Z.succ (Zpos (digits2_pos m)) - 1) with (Z.succ (Zpos (digits2_pos m) - 1)) by lia.
    rewrite !Z.pow_succ_r by lia.
    change (Zpos m~0) with (2 * Zpos m). lia.
  - simpl. lia.
Qed.

Lemma valid_finite_inv s m e :
  valid (S754_finite s m e) = true ->
  Z.max (Zpos (digits2_pos m) + e - 53) (-1074) = e /\ e <= 971.
Proof.
  unfold valid, valid_binary, bounded, canonical_mantissa, fexp, emin, prec, emax.
  rewrite andb_true_iff, Z.eqb_eq, Z.leb_le. simpl Z.sub. tauto.
Qed.

Lemma valid_finite_bounds s m e :
  valid (S754_finite s m e) = true ->
  -1074 <= e <= 971 /\ Zpos m < 2 ^ 53 /\ (-1074 < e -> 2 ^ 52 <= Zpos m).
Proof.
  intros H. apply valid_finite_inv in H. destruct H as [H1 H2].
  pose proof (digits2_pos_bounds m) as [Hl Hu].
  assert (Hd : Zpos (digits2_pos m) <= 53) by lia.
  repeat split; try lia.
  - eapply Z.lt_le_trans; [exact Hu|]. apply Z.pow_le_mono_r; lia.
  - intros He. assert (Zpos (digits2_pos m) = 53) by lia.
    rewrite H in Hl. exact Hl.
Qed.

Lemma digits2_pos_unique p k :
  2 ^ (k - 1) <= Zpos p < 2 ^ k -> Zpos (digits2_pos p) = k.
Proof.
  intros [Hl Hu]. pose proof (digits2_pos_bounds p) as [Dl Du].
  set (d := Zpos (digits2_pos p)) in *.
  destruct (Z.lt_trichotomy d k) as [H | [H | H]]; [exfalso | exact H | exfalso].
  - assert (2 ^ d <= 2 ^ (k - 1)) by (apply Z.pow_le_mono_r; lia). lia.
  - assert (2 ^ k <= 2 ^ (d - 1)) by (apply Z.pow_le_mono_r; lia). lia.
Qed.

Lemma iter_pos_inv {A : Type} (f : A -> A) (P : Z -> A -> Prop) :
  (forall k x, P k x -> P (k + 1) (f x)) ->
  forall n k x, P k x -> P (k + Zpos n) (iter_pos f n x).
Proof.
  intros Hstep. induction n as [n IH | n IH | ]; intros k x Hx; cbn [iter_pos].
  - replace (k + Zpos n~1) with (k + 1 + Zpos n + Zpos n) by lia.
    apply IH, IH, Hstep, Hx.
  - replace (k + Zpos n~0) with (k + Zpos n + Zpos n) by lia.
    apply IH, IH, Hx.
  - apply Hstep, Hx.
Qed.

Lemma shr_1_even z :
  0 < z -> Z.even z = true ->
  shr_1 (Build_shr_record z false false) = Build_shr_record (z / 2) false false.
Proof.
  intros Hz He. destruct z as [ | [p | p | ] | p ]; try discriminate; try lia.
  cbn [shr_1 orb]. f_equal.
  change (Zpos p~0) with (2 * Zpos p). rewrite Z.mul_comm, Z.div_mul; lia.
Qed.

Lemma iter_shr_1_exact n c :
  0 < c ->
  iter_pos shr_1 n (Build_shr_record (c * 2 ^ Zpos n) false false)
  = Build_shr_record c false false.
Proof.
  intros Hc.
  pose (P := fun (k : Z) (r : shr_record) =>
    0 <= k /\ (k <= Zpos n ->
               r = Build_shr_record (c * 2 ^ (Zpos n - k)) false false)).
  assert (H : P (0 + Zpos n) (iter_pos shr_1 n
               (Build_shr_record (c * 2 ^ Zpos n) false false))).
  { apply iter_pos_inv.
    - intros k x [Hk Hx]. split; [lia|]. intros Hk'.
      rewrite Hx by lia.
      replace (Zpos n - k) with (Z.succ (Zpos n - (k + 1))) by lia.
      rewrite Z.pow_succ_r by lia.
      assert (0 < 2 ^ (Zpos n - (k + 1))) by (apply Z.pow_pos_nonneg; lia).
      rewrite shr_1_even.
      + f_equal. replace (c * (2 * 2 ^ (Zpos n - (k + 1))))
          with (c * 2 ^ (Zpos n - (k + 1)) * 2) by ring.
        apply Z.div_mul. lia.
      + nia.
      + rewrite Z.even_mul, (Z.even_mul 2). simpl. apply orb_true_r.
    - split; [lia|]. intros _. now rewrite Z.sub_0_r. }
  destruct H as [_ H]. rewrite H by lia.
  replace (Zpos n - (0 + Zpos n)) with 0 by lia. now rewrite Z.mul_1_r.
Qed.

(** A product that only needs its trailing zero bits dropped is exact. *)
Lemma binary_round_aux_exact s c n E :
  fexp prec emax (Zpos (digits2_pos c) + Zpos n + E) = E + Zpos n ->
  E + Zpos n <= 971 ->
  binary_round_aux prec emax s (Zpos c * 2 ^ Zpos n) E loc_Exact
  = S754_finite s c (E + Zpos n).
Proof.
  intros Hf He.
  assert (Hd : Zdigits2 (Zpos c * 2 ^ Zpos n) = Zpos (digits2_pos c) + Zpos n).
  { assert (Hpos : 0 < 2 ^ Zpos n) by (apply Z.pow_pos_nonneg; lia).
    destruct (Zpos c * 2 ^ Zpos n) as [ | p | p ] eqn:Hp; try lia.
    cbn [Zdigits2]. apply digits2_pos_unique. rewrite <- Hp.
    pose proof (digits2_pos_bounds c) as [Dl Du].
    replace (Zpos (digits2_pos c) + Zpos n - 1)
      with (Zpos (digits2_pos c) - 1 + Zpos n) by lia.
    rewrite !Z.pow_add_r by lia. nia. }
  unfold binary_round_aux, shr_fexp.
  rewrite Hd.
  replace (fexp prec emax (Zpos (digits2_pos c) + Zpos n + E) - E) with (Zpos n) by lia.
  cbn [shr shr_record_of_loc].
  rewrite iter_shr_1_exact by lia.
  cbn [shr_m loc_of_shr_record round_nearest_even Zdigits2].
  replace (fexp prec emax (Zpos (digits2_pos c) + (E + Zpos n)) - (E + Zpos n)) with 0.
  2:{ replace (Zpos (digits2_pos c) + (E + Zpos n)) with (Zpos (digits2_pos c) + Zpos n + E) by lia. lia. }
  cbn [shr shr_m].
  replace (E + Zpos n <=? emax - prec) with true; [reflexivity|].
  symmetry. apply Z.leb_le. unfold emax, prec. lia.
Qed.

Lemma fmul_32768_finite s m e :
  valid (S754_finite s m e) = true -> e <= 956 ->
  exists m' k, 0 <= k /\ Zpos m' = Zpos m * 2 ^ k /\
    fmul (S754_finite s m e) f_32768 = S754_finite s m' (e + 15 - k).
Proof.
  intros Hv He. apply valid_finite_inv in Hv. destruct Hv as [Hc _].
  set (d := Zpos (digits2_pos m)) in *.
  pose (n := Z.max (d + e - 38) (-1074) - (e - 37)).
  assert (Hn : 37 <= n <= 52) by (pose proof (Pos2Z.is_pos (digits2_pos m)); lia).
  pose (k := 52 - n).
  assert (Hk : 0 < 2 ^ k) by (apply Z.pow_pos_nonneg; lia).
  exists (Z.to_pos (Zpos m * 2 ^ k)), k.
  assert (Hm' : Zpos (Z.to_pos (Zpos m * 2 ^ k)) = Zpos m * 2 ^ k)
    by (apply Z2Pos.id; nia).
  split; [lia|]. split; [exact Hm'|].
  unfold fmul, f_32768, SFmul. rewrite xorb_false_r.
  rewrite Pos2Z.inj_mul. change (Zpos 4503599627370496) with (2 ^ 52).
  replace (Zpos m * 2 ^ 52)
    with (Zpos (Z.to_pos (Zpos m * 2 ^ k)) * 2 ^ Zpos (Z.to_pos n)).
  2:{ rewrite Hm', Z2Pos.id by lia. rewrite <- Z.mul_assoc, <- Z.pow_add_r by lia.
      f_equal. f_equal. lia. }
  rewrite binary_round_aux_exact.
  - f_equal. rewrite Z2Pos.id by lia. lia.
  - rewrite Z2Pos.id by lia.
    replace (Zpos (digits2_pos (Z.to_pos (Zpos m * 2 ^ k)))) with (d + k).
    2:{ symmetry. apply digits2_pos_unique. rewrite Hm'.
        pose proof (digits2_pos_bounds m) as [Dl Du]. fold d in Dl, Du.
        replace (d + k - 1) with (d - 1 + k) by lia.
        rewrite !Z.pow_add_r by (pose proof (Pos2Z.is_pos (digits2_pos m)); lia).
        nia. }
    unfold fexp, emin, prec, emax. lia.
  - rewrite Z2Pos.id by lia. lia.
Qed.

Local Open Scope Q_scope.

Lemma inject_Z_pow2 k : (0 <= k)%Z -> inject_Z (2 ^ k) == (2 # 1) ^ k.
Proof. intros Hk. now rewrite Zpower_Qpower. Qed.

Lemma inject_Z_cond_Zopp s z :
  inject_Z (cond_Zopp s z) == (if s then - inject_Z z else inject_Z z).
Proof. destruct s; simpl; [rewrite inject_Z_opp|]; reflexivity. Qed.

Lemma Qpow2_nonzero e : ~ (2 # 1) ^ e == 0.
Proof. apply Qpower_not_0. discriminate. Qed.

Lemma Qpow2_pos e : 0 < (2 # 1) ^ e.
Proof. apply Qpower_0_lt. reflexivity. Qed.

(** Multiplying a double of small magnitude by 32768 is exact. *)
Lemma SF2Q_fmul_32768 s m e :
  valid (S754_finite s m e) = true -> (e <= 956)%Z ->
  is_finite (fmul (S754_finite s m e) f_32768) = true /\
  SF2Q (fmul (S754_finite s m e) f_32768) == SF2Q (S754_finite s m e) * 32768.
Proof.
  intros Hv He.
  destruct (fmul_32768_finite s m e Hv He) as (m' & k & Hk & Hm' & ->).
  split; [reflexivity|]. unfold SF2Q.
  assert (Hz : cond_Zopp s (Zpos m') = (cond_Zopp s (Zpos m) * 2 ^ k)%Z).
  { destruct s; unfold cond_Zopp; rewrite Hm'; ring. }
  rewrite Hz, inject_Z_mult, inject_Z_pow2 by lia.
  replace (e + 15 - k)%Z with (e + (15 + - k))%Z by lia.
  rewrite !Qpower_plus, Qpower_opp by (discriminate).
  change ((2 # 1) ^ 15) with 32768.
  field. apply Qpow2_nonzero.
Qed.

End Binary64Facts.
Import Binary64Facts.

(** ** Rounding to the nearest integer *)

Module RoundingFacts.

Local Open Scope Q_scope.

Lemma round_half_even_comp q1 q2 :
  q1 == q2 -> round_half_even q1 = round_half_even q2.
Proof.
  intros H. unfold round_half_even.
  assert (Hf : Qfloor q1 = Qfloor q2) by (rewrite H; reflexivity).
  rewrite Hf.
  assert (Hc : (q1 - inject_Z (Qfloor q2) ?= 1 # 2)
               = (q2 - inject_Z (Qfloor q2) ?= 1 # 2))
    by (rewrite H; reflexivity).
  now rewrite Hc.
Qed.

Lemma Qfloor_bounds q :
  inject_Z (Qfloor q) <= q /\ q < inject_Z (Qfloor q) + 1.
Proof.
  split; [apply Qfloor_le|].
  pose proof (Qlt_floor q) as H. rewrite inject_Z_plus in H. exact H.
Qed.

Lemma Qfloor_unique q k :
  inject_Z k <= q -> q < inject_Z k + 1 -> Qfloor q = k.
Proof.
  intros Hl Hu. destruct (Qfloor_bounds q) as [Fl Fu].
  assert (H1 : inject_Z k < inject_Z (Qfloor q + 1))
    by (rewrite inject_Z_plus; change (inject_Z 1) with 1; lra).
  assert (H2 : inject_Z (Qfloor q) < inject_Z (k + 1))
    by (rewrite inject_Z_plus; change (inject_Z 1) with 1; lra).
  rewrite <- Zlt_Qlt in H1, H2. lia.
Qed.

Lemma round_half_even_cases q :
  let f := Qfloor q in
  (q - inject_Z f < 1 # 2 /\ round_half_even q = f) \/
  (q - inject_Z f == 1 # 2 /\
   round_half_even q = (if Z.even f then f else f + 1)%Z) \/
  (1 # 2 < q - inject_Z f /\ round_half_even q = (f + 1)%Z).
Proof.
  intros f. unfold round_half_even. fold f.
  destruct (Qcompare_spec (q - inject_Z f) (1 # 2)) as [H | H | H]; auto.
Qed.

Lemma round_half_even_nearest q :
  Qabs (inject_Z (round_half_even q) - q) <= 1 # 2.
Proof.
  destruct (Qfloor_bounds q) as [Fl Fu].
  apply Qabs_Qle_condition.
  destruct (round_half_even_cases q) as [[H ->] | [[H ->] | [H ->]]].
  - lra.
  - destruct (Z.even (Qfloor q)); [|rewrite inject_Z_plus; change (inject_Z 1) with 1]; lra.
  - rewrite inject_Z_plus; change (inject_Z 1) with 1; lra.
Qed.

Lemma round_half_even_floor q :
  (Qfloor q <= round_half_even q <= Qfloor q + 1)%Z.
Proof.
  destruct (round_half_even_cases q) as [[H ->] | [[H ->] | [H ->]]];
    try destruct (Z.even (Qfloor q)); lia.
Qed.

Lemma round_half_even_ge q n : inject_Z n <= q -> (n <= round_half_even q)%Z.
Proof.
  intros H. apply Qfloor_resp_le in H. rewrite Qfloor_Z in H.
  pose proof (round_half_even_floor q). lia.
Qed.

Lemma round_half_even_le q n : q <= inject_Z n -> (round_half_even q <= n)%Z.
Proof.
  intros H. destruct (Qfloor_bounds q) as [Fl Fu].
  assert (Hf : inject_Z (Qfloor q) <= inject_Z n) by lra.
  rewrite <- Zle_Qle in Hf.
  destruct (round_half_even_cases q) as [[Hc ->] | [[Hc ->] | [Hc ->]]].
  - exact Hf.
  - assert (inject_Z (Qfloor q) < inject_Z n) by lra.
    rewrite <- Zlt_Qlt in H0. destruct (Z.even (Qfloor q)); lia.
  - assert (inject_Z (Qfloor q) < inject_Z n) by lra.
    rewrite <- Zlt_Qlt in H0. lia.
Qed.

Lemma inject_Z_minus x y : inject_Z (x - y) = inject_Z x - inject_Z y.
Proof. unfold Z.sub. now rewrite inject_Z_plus, inject_Z_opp. Qed.

Lemma round_half_even_ge_half q n :
  inject_Z n - (1 # 2) < q -> (n <= round_half_even q)%Z.
Proof.
  intros H. destruct (Qfloor_bounds q) as [Fl Fu].
  assert (Hf : inject_Z (n - 1) < inject_Z (Qfloor q) + 1).
  { rewrite inject_Z_minus. change (inject_Z 1) with 1. lra. }
  assert (Hf' : inject_Z (n - 1) < inject_Z (Qfloor q + 1))
    by (rewrite inject_Z_plus; exact Hf).
  rewrite <- Zlt_Qlt in Hf'.
  destruct (Z.eq_dec (Qfloor q) (n - 1)) as [E | E].
  - destruct (round_half_even_cases q) as [[Hc ->] | [[Hc ->] | [Hc ->]]];
      rewrite E in Hc; rewrite inject_Z_minus in Hc;
      change (inject_Z 1) with 1 in Hc; try lra; lia.
  - pose proof (round_half_even_floor q). lia.
Qed.

Lemma round_half_even_Z n : round_half_even (inject_Z n) = n.
Proof.
  apply Z.le_antisymm.
  - apply round_half_even_le. lra.
  - apply round_half_even_ge. lra.
Qed.

Lemma round_half_even_tie q k :
  q == inject_Z k + (1 # 2) ->
  round_half_even q = (if Z.even k then k else k + 1)%Z.
Proof.
  intros H. assert (Hf : Qfloor q = k) by (apply Qfloor_unique; lra).
  destruct (round_half_even_cases q) as [[Hc E] | [[Hc E] | [Hc E]]];
    rewrite Hf in *; try lra. exact E.
Qed.

End RoundingFacts.
Import RoundingFacts.

(** ** Comparison of doubles is comparison of their values *)

Module CompareFacts.

Local Open Scope Q_scope.

Lemma Qscale_pow2 m e1 e2 :
  (e1 <= e2)%Z ->
  inject_Z m * (2 # 1) ^ e2 == inject_Z (m * 2 ^ (e2 - e1)) * (2 # 1) ^ e1.
Proof.
  intros H. rewrite inject_Z_mult, inject_Z_pow2 by lia.
  replace e2 with (e2 - e1 + e1)%Z at 1 by lia.
  rewrite Qpower_plus by discriminate. ring.
Qed.

Lemma Qmult_pow2_lt a b e :
  (a < b)%Z -> inject_Z a * (2 # 1) ^ e < inject_Z b * (2 # 1) ^ e.
Proof.
  intros H. apply Qmult_lt_compat_r; [apply Qpow2_pos|].
  now rewrite <- Zlt_Qlt.
Qed.

Lemma SF2Q_pos_lt_exp m1 e1 m2 e2 :
  valid (S754_finite false m1 e1) = true ->
  valid (S754_finite false m2 e2) = true ->
  (e1 < e2)%Z ->
  inject_Z (Zpos m1) * (2 # 1) ^ e1 < inject_Z (Zpos m2) * (2 # 1) ^ e2.
Proof.
  intros H1 H2 He.
  apply valid_finite_bounds in H1, H2.
  destruct H1 as (B1 & U1 & _), H2 as (B2 & _ & L2).
  rewrite (Qscale_pow2 (Zpos m2) e1 e2) by lia.
  apply Qmult_pow2_lt.
  assert (2 ^ 1 <= 2 ^ (e2 - e1))%Z by (apply Z.pow_le_mono_r; lia).
  specialize (L2 ltac:(lia)).
  change (2 ^ 1)%Z with 2%Z in H.
  change (2 ^ 53)%Z with (2 * 2 ^ 52)%Z in U1. nia.
Qed.

Lemma SF2Q_pos_compare m1 e1 m2 e2 :
  valid (S754_finite false m1 e1) = true ->
  valid (S754_finite false m2 e2) = true ->
  (inject_Z (Zpos m1) * (2 # 1) ^ e1 ?= inject_Z (Zpos m2) * (2 # 1) ^ e2)
  = match (e1 ?= e2)%Z with
    | Lt => Lt
    | Gt => Gt
    | Eq => Pos.compare_cont Eq m1 m2
    end.
Proof.
  intros H1 H2. destruct (Z.compare_spec e1 e2) as [E | E | E].
  - subst e2. change (Pos.compare_cont Eq m1 m2) with (Pos.compare m1 m2).
    destruct (Pos.compare_spec m1 m2) as [M | M | M].
    + subst m2. apply (proj1 (Qeq_alt _ _)). reflexivity.
    + apply (proj1 (Qlt_alt _ _)). apply Qmult_pow2_lt. lia.
    + apply (proj1 (Qgt_alt _ _)). apply Qmult_pow2_lt. lia.
  - apply (proj1 (Qlt_alt _ _)). now apply SF2Q_pos_lt_exp.
  - apply (proj1 (Qgt_alt _ _)). now apply SF2Q_pos_lt_exp.
Qed.

Lemma Qcompare_opp a b : (- a ?= - b) = CompOpp (a ?= b).
Proof.
  unfold Qcompare, Qopp. cbn [Qnum Qden].
  rewrite !Z.mul_opp_l, Z.compare_opp. apply Z.compare_antisym.
Qed.

Lemma SF2Q_neg m e :
  SF2Q (S754_finite true m e) == - SF2Q (S754_finite false m e).
Proof.
  unfold SF2Q, cond_Zopp. rewrite inject_Z_opp. ring.
Qed.

Lemma SF2Q_pos_gt0 m e : 0 < SF2Q (S754_finite false m e).
Proof.
  unfold SF2Q, cond_Zopp.
  apply Qmult_lt_0_compat; [|apply Qpow2_pos].
  change 0 with (inject_Z 0). rewrite <- Zlt_Qlt. lia.
Qed.

Theorem SFcompare_SF2Q x y :
  valid x = true -> valid y = true ->
  is_finite x = true -> is_finite y = true ->
  SFcompare x y = Some (SF2Q x ?= SF2Q y).
Proof.
  intros Vx Vy Fx Fy.
  destruct x as [sx | sx | | sx mx ex]; try discriminate;
    destruct y as [sy | sy | | sy my ey]; try discriminate.
  - reflexivity.
  - cbn [SFcompare]. f_equal. symmetry.
    pose proof (SF2Q_pos_gt0 my ey) as P.
    change (SF2Q (S754_zero sx)) with 0.
    destruct sy; [apply (proj1 (Qgt_alt _ _)); rewrite SF2Q_neg | apply (proj1 (Qlt_alt _ _))]; lra.
  - cbn [SFcompare]. f_equal. symmetry.
    pose proof (SF2Q_pos_gt0 mx ex) as P.
    change (SF2Q (S754_zero sy)) with 0.
    destruct sx; [apply (proj1 (Qlt_alt _ _)); rewrite SF2Q_neg | apply (proj1 (Qgt_alt _ _))]; lra.
  - cbn [SFcompare]. f_equal. symmetry.
    pose proof (SF2Q_pos_gt0 mx ex) as Px.
    pose proof (SF2Q_pos_gt0 my ey) as Py.
    destruct sx, sy.
    + rewrite (Qcompare_comp _ _ (SF2Q_neg mx ex) _ _ (SF2Q_neg my ey)).
      rewrite Qcompare_opp. unfold SF2Q, cond_Zopp.
      rewrite SF2Q_pos_compare by assumption.
      destruct (ex ?= ey)%Z; reflexivity.
    + apply (proj1 (Qlt_alt _ _)). rewrite SF2Q_neg. lra.
    + apply (proj1 (Qgt_alt _ _)). rewrite SF2Q_neg. lra.
    + unfold SF2Q, cond_Zopp. now apply SF2Q_pos_compare.
Qed.

Lemma flt_SF2Q x y :
  valid x = true -> valid y = true ->
  is_finite x = true -> is_finite y = true ->
  flt x y = true <-> SF2Q x < SF2Q y.
Proof.
  intros Vx Vy Fx Fy. unfold flt, SFltb.
  rewrite (SFcompare_SF2Q x y) by assumption.
  rewrite Qlt_alt. destruct (SF2Q x ?= SF2Q y); split; congruence.
Qed.

End CompareFacts.
Import CompareFacts.

(** ** The literals and the sample inputs *)

Local Open Scope Q_scope.

Example literals_valid :
  forallb valid
    [f_minus_one; f_32768; f_q15_max; f_0_999969; f_zero; f_half;
     f_minus_half; f_1_5; f_minus_two; f_1_65536; f_3_65536; f_nan; f_inf;
     f_minus_inf] = true.
Proof. reflexivity. Qed.

Example literal_values :
  SF2Q f_32768 == 32768 /\ SF2Q f_half == 1 # 2 /\
  SF2Q f_minus_half == - (1 # 2) /\ SF2Q f_1_5 == 3 # 2 /\
  SF2Q f_minus_two == -2 /\ SF2Q f_1_65536 == 1 # 65536 /\
  SF2Q f_3_65536 == 3 # 65536.
Proof. repeat split. Qed.

(** 32768 is the double of the integer, and 0.999969 is the correctly
    rounded quotient of 999969 by 1000000. *)
Example literal_32768 : f_32768 = of_Z 32768.
Proof. reflexivity. Qed.

Example literal_0_999969 :
  f_0_999969 = SFdiv prec emax (of_Z 999969) (of_Z 1000000).
Proof. reflexivity. Qed.

(** ** The quantiser of [convert_params_to_hex.py] *)

(** *** The clamp of [float_to_q15_hex] *)

Lemma SF2Q_q15_max : SF2Q f_q15_max == QuantizerSpec.q15_max.
Proof. reflexivity. Qed.

Lemma SF2Q_minus_one : SF2Q f_minus_one == -1.
Proof. reflexivity. Qed.

Lemma clamp_cases x :
  valid x = true -> is_finite x = true ->
  (QuantizerSpec.q15_max < SF2Q x /\ clamp x = f_q15_max) \/
  (-1 < SF2Q x <= QuantizerSpec.q15_max /\ clamp x = x) \/
  (SF2Q x <= -1 /\ clamp x = f_minus_one).
Proof.
  intros V F. unfold clamp, py_min, py_max.
  pose proof (flt_SF2Q f_q15_max x eq_refl V eq_refl F) as Hmax.
  pose proof (flt_SF2Q f_minus_one x eq_refl V eq_refl F) as Hmin.
  rewrite SF2Q_q15_max in Hmax. rewrite SF2Q_minus_one in Hmin.
  destruct (flt f_q15_max x).
  - left. split; [now apply Hmax | reflexivity].
  - right. assert (SF2Q x <= QuantizerSpec.q15_max).
    { apply Qnot_lt_le. intros C. apply Hmax in C. discriminate. }
    destruct (flt f_minus_one x).
    + left. split; [split|]; [now apply Hmin | assumption | reflexivity].
    + right. split; [|reflexivity].
      apply Qnot_lt_le. intros C. apply Hmin in C. discriminate.
Qed.

Lemma clamp_nonfinite x :
  is_finite x = false ->
  clamp x = match x with S754_infinity false => f_q15_max | _ => f_minus_one end.
Proof. destruct x as [ | [ | ] | | ]; try discriminate; reflexivity. Qed.

Lemma clamp_valid_finite x :
  valid x = true ->
  valid (clamp x) = true /\ is_finite (clamp x) = true /\
  -1 <= SF2Q (clamp x) <= QuantizerSpec.q15_max.
Proof.
  intros V. destruct (is_finite x) eqn:F.
  - destruct (clamp_cases x V F) as [[H ->] | [[H ->] | [H ->]]].
    + repeat split; try reflexivity; rewrite SF2Q_q15_max; unfold QuantizerSpec.q15_max; lra.
    + repeat split; try assumption; lra.
    + repeat split; try reflexivity; rewrite SF2Q_minus_one; unfold QuantizerSpec.q15_max; lra.
  - rewrite clamp_nonfinite by assumption.
    destruct x as [ | [ | ] | | ]; repeat split; try reflexivity;
      try rewrite SF2Q_q15_max; try rewrite SF2Q_minus_one;
      unfold QuantizerSpec.q15_max; lra.
Qed.

Lemma clamp_SF2Q x :
  valid x = true -> is_finite x = true ->
  SF2Q (clamp x) == QuantizerSpec.clamp (SF2Q x).
Proof.
  intros V F. unfold QuantizerSpec.clamp.
  destruct (clamp_cases x V F) as [[H ->] | [[H ->] | [H ->]]].
  - rewrite SF2Q_q15_max.
    replace (Qle_bool (-1) (SF2Q x)) with true.
    2:{ symmetry. apply Qle_bool_iff. unfold QuantizerSpec.q15_max in H. lra. }
    replace (Qle_bool (SF2Q x) QuantizerSpec.q15_max) with false; [reflexivity|].
    symmetry. apply not_true_is_false. rewrite Qle_bool_iff. lra.
  - replace (Qle_bool (-1) (SF2Q x)) with true
      by (symmetry; apply Qle_bool_iff; lra).
    replace (Qle_bool (SF2Q x) QuantizerSpec.q15_max) with true
      by (symmetry; apply Qle_bool_iff; lra).
    reflexivity.
  - rewrite SF2Q_minus_one.
    destruct (Qle_bool (-1) (SF2Q x)) eqn:E; [|reflexivity].
    apply Qle_bool_iff in E.
    replace (Qle_bool (SF2Q x) QuantizerSpec.q15_max) with true.
    + lra.
    + symmetry. apply Qle_bool_iff. unfold QuantizerSpec.q15_max. lra.
Qed.

(** *** Scaling by 32768 and rounding *)

Lemma small_value_exponent s m e :
  valid (S754_finite s m e) = true ->
  -1 <= SF2Q (S754_finite s m e) <= 1 -> (e < 0)%Z.
Proof.
  intros V [Hl Hu]. apply Z.lt_nge. intros He.
  pose proof (valid_finite_bounds s m e V) as (_ & _ & L).
  specialize (L ltac:(lia)).
  assert (P : (0 < 2 ^ e)%Z) by (apply Z.pow_pos_nonneg; lia).
  change (2 ^ 52)%Z with 4503599627370496%Z in L.
  unfold SF2Q in Hl, Hu.
  rewrite (Qscale_pow2 _ 0 e He) in Hl, Hu.
  change ((2 # 1) ^ 0) with 1 in Hl, Hu. rewrite Qmult_1_r, Z.sub_0_r in Hl, Hu.
  change 1 with (inject_Z 1) in Hu. change (-1) with (inject_Z (-1)) in Hl.
  rewrite <- Zle_Qle in Hl, Hu.
  destruct s; unfold cond_Zopp in *; nia.
Qed.

Lemma scale_round_small v :
  valid v = true -> is_finite v = true -> -1 <= SF2Q v <= 1 ->
  scale_round v = Some (round_half_even (SF2Q v * 32768)).
Proof.
  intros V F B. unfold scale_round.
  destruct v as [s | s | | s m e]; try discriminate.
  - reflexivity.
  - pose proof (small_value_exponent s m e V B) as He.
    destruct (fmul_32768_finite s m e V ltac:(lia)) as (m' & k & Hk & Hm' & E).
    destruct (SF2Q_fmul_32768 s m e V ltac:(lia)) as [_ Hq].
    rewrite E in *. cbn [py_round]. f_equal.
    now apply round_half_even_comp.
Qed.

Lemma scale_round_clamp x :
  valid x = true ->
  scale_round (clamp x) = Some (round_half_even (SF2Q (clamp x) * 32768)) /\
  (-32768 <= round_half_even (SF2Q (clamp x) * 32768) <= 32767)%Z.
Proof.
  intros V. destruct (clamp_valid_finite x V) as (V' & F' & Hl & Hu).
  unfold QuantizerSpec.q15_max in Hu. split.
  - apply scale_round_small; try assumption. lra.
  - split.
    + apply round_half_even_ge. change (inject_Z (-32768)) with (-32768). lra.
    + apply round_half_even_le. change (inject_Z 32767) with 32767. lra.
Qed.

(** *** Words and their four hexadecimal digits *)

Local Open Scope Z_scope.

Lemma all_from_spec p n : forall k,
  Ranges.all_from p k n = true ->
  forall w, k <= w < k + Z.of_nat n -> p w = true.
Proof.
  induction n as [ | n IH]; intros k H w Hw; [lia|].
  cbn [Ranges.all_from] in H. apply andb_true_iff in H. destruct H as [Hk Hr].
  destruct (Z.eq_dec w k) as [-> | Hne]; [exact Hk|].
  apply (IH (k + 1) Hr). lia.
Qed.

Lemma words_checked :
  Ranges.all_from
    (fun w => String.eqb (format_04X w) (QuantizerSpec.format_hex w)
              && (parse_hex (QuantizerSpec.format_hex w) =? w))
    0 (Z.to_nat 65536) = true.
Proof. vm_cast_no_check (eq_refl true). Qed.

Lemma word_checked w :
  0 <= w <= 65535 ->
  format_04X w = QuantizerSpec.format_hex w /\
  parse_hex (QuantizerSpec.format_hex w) = w.
Proof.
  intros H. pose proof (all_from_spec _ _ _ words_checked w) as C.
  cbv beta in C. rewrite andb_true_iff, String.eqb_eq, Z.eqb_eq in C.
  apply C. lia.
Qed.

Lemma hex_digit_upper d : is_upper_hex (hex_digit d) = true.
Proof.
  destruct d as [ | p | p ]; try reflexivity.
  do 5 (try destruct p as [p | p | ]; try reflexivity).
Qed.

Lemma format_hex_shape w :
  String.length (QuantizerSpec.format_hex w) = 4%nat /\
  all_chars is_upper_hex (QuantizerSpec.format_hex w) = true.
Proof.
  split; [reflexivity|]. unfold QuantizerSpec.format_hex. cbn [all_chars].
  now rewrite !hex_digit_upper.
Qed.

Lemma handle_overflow_guard n :
  handle_overflow n = QuantizerSpec.guard n.
Proof.
  unfold handle_overflow, QuantizerSpec.guard.
  rewrite Z.gtb_ltb. reflexivity.
Qed.

Lemma handle_overflow_id n :
  -32768 <= n <= 32767 -> handle_overflow n = n.
Proof.
  intros H. unfold handle_overflow.
  destruct (Z.gtb_spec n 32767); [lia|].
  destruct (Z.ltb_spec n (-32768)); [lia|]. reflexivity.
Qed.

Lemma to_unsigned_range n :
  -32768 <= n <= 32767 -> 0 <= to_unsigned n <= 65535.
Proof. intros H. unfold to_unsigned. destruct (Z.ltb_spec n 0); lia. Qed.

Lemma land_0xFFFF n :
  -32768 <= n <= 32767 -> Z.land n 65535 = to_unsigned n.
Proof.
  intros H. change 65535 with (Z.ones 16). rewrite Z.land_ones by lia.
  unfold to_unsigned. change (2 ^ 16) with 65536.
  destruct (Z.ltb_spec n 0).
  - symmetry. apply Z.mod_unique with (q := -1); lia.
  - apply Z.mod_small. lia.
Qed.

Lemma guard_range n : -32768 <= QuantizerSpec.guard n <= 32767.
Proof.
  unfold QuantizerSpec.guard.
  destruct (Z.ltb_spec 32767 n); [lia|].
  destruct (Z.ltb_spec n (-32768)); lia.
Qed.

Lemma quantize_range q : 0 <= QuantizerSpec.quantize q <= 65535.
Proof.
  unfold QuantizerSpec.quantize. apply (to_unsigned_range _ (guard_range _)).
Qed.

(** *** The word of [float_to_q15_hex] *)

Lemma q15_word_clamp x :
  valid x = true ->
  q15_word x
  = Some (to_unsigned (round_half_even (SF2Q (clamp x) * 32768))).
Proof.
  intros V. unfold q15_word.
  destruct (scale_round_clamp x V) as [-> R].
  now rewrite handle_overflow_id.
Qed.

Lemma q15_word_quantize x :
  valid x = true -> is_finite x = true ->
  q15_word x = Some (QuantizerSpec.quantize (SF2Q x)).
Proof.
  intros V F. unfold q15_word.
  destruct (scale_round_clamp x V) as [-> _].
  rewrite handle_overflow_guard. unfold QuantizerSpec.quantize.
  rewrite (round_half_even_comp (SF2Q (clamp x) * 32768)
             (QuantizerSpec.clamp (SF2Q x) * 32768))
    by now rewrite clamp_SF2Q.
  reflexivity.
Qed.

Lemma float_to_q15_hex_quantize x :
  valid x = true -> is_finite x = true ->
  float_to_q15_hex x
  = Some (QuantizerSpec.format_hex (QuantizerSpec.quantize (SF2Q x))).
Proof.
  intros V F. unfold float_to_q15_hex. rewrite (q15_word_quantize x V F).
  now destruct (word_checked _ (quantize_range (SF2Q x))) as [-> _].
Qed.

Lemma float_to_q15_hex_total x :
  valid x = true ->
  exists w, q15_word x = Some w /\ 0 <= w <= 65535 /\
            float_to_q15_hex x = Some (QuantizerSpec.format_hex w).
Proof.
  intros V. unfold float_to_q15_hex. rewrite q15_word_clamp by assumption.
  destruct (scale_round_clamp x V) as [_ R].
  pose proof (to_unsigned_range _ R) as W.
  eexists. split; [reflexivity|]. split; [exact W|].
  now destruct (word_checked _ W) as [-> _].
Qed.

Local Open Scope Z_scope.

(** *** The quantiser of [extract_gan_parameters.py] *)

Lemma int16_checked :
  Ranges.all_from
    (fun n => match astype_int16
                      (match n with 0 => S754_zero false | _ => of_Z n end)
              with
              | Some t => t =? n
              | None => false
              end)
    (-32768) (Z.to_nat 65536) = true.
Proof. vm_cast_no_check (eq_refl true). Qed.

Lemma astype_int16_of_Z n :
  -32768 <= n <= 32767 -> n <> 0 -> astype_int16 (of_Z n) = Some n.
Proof.
  intros H Hn. pose proof (all_from_spec _ _ _ int16_checked n) as C.
  cbv beta in C. specialize (C ltac:(lia)).
  destruct n as [ | p | p ]; [congruence | |];
    (destruct (astype_int16 _) as [t | ]; [|discriminate];
     apply Z.eqb_eq in C; now subst t).
Qed.

Lemma astype_int16_np_round y :
  is_finite y = true ->
  -32768 <= round_half_even (SF2Q y) <= 32767 ->
  astype_int16 (np_round y) = Some (round_half_even (SF2Q y)).
Proof.
  intros F R. destruct y as [s | s | | s m e]; try discriminate.
  - reflexivity.
  - cbn [np_round].
    destruct (round_half_even (SF2Q (S754_finite s m e))) as [ | p | p ] eqn:E.
    + reflexivity.
    + now apply astype_int16_of_Z.
    + now apply astype_int16_of_Z.
Qed.

Local Open Scope Q_scope.

Lemma fmul_32768_small v :
  valid v = true -> is_finite v = true -> -1 <= SF2Q v <= 1 ->
  is_finite (fmul v f_32768) = true /\
  SF2Q (fmul v f_32768) == SF2Q v * 32768.
Proof.
  intros V F B. destruct v as [s | s | | s m e]; try discriminate.
  - split; reflexivity.
  - pose proof (small_value_exponent s m e V B) as He.
    apply SF2Q_fmul_32768; [assumption | lia].
Qed.

Lemma SF2Q_0_999969 :
  SF2Q f_0_999969 == 9006920031564095 # 9007199254740992.
Proof. reflexivity. Qed.

Lemma np_clip_cases x :
  valid x = true -> is_finite x = true ->
  (SF2Q x <= -1 /\ np_clip x f_minus_one f_0_999969 = f_minus_one) \/
  (-1 < SF2Q x < SF2Q f_0_999969 /\ np_clip x f_minus_one f_0_999969 = x) \/
  (SF2Q f_0_999969 <= SF2Q x /\
   np_clip x f_minus_one f_0_999969 = f_0_999969).
Proof.
  intros V F. unfold np_clip, np_max.
  replace (is_nan x) with false by (destruct x; try discriminate; reflexivity).
  pose proof (flt_SF2Q f_minus_one x eq_refl V eq_refl F) as Hmin.
  pose proof (flt_SF2Q x f_0_999969 V eq_refl F eq_refl) as Hmax.
  rewrite SF2Q_minus_one in Hmin.
  destruct (flt f_minus_one x).
  - right. assert (L : -1 < SF2Q x) by now apply Hmin.
    unfold np_min.
    replace (is_nan x) with false by (destruct x; try discriminate; reflexivity).
    destruct (flt x f_0_999969).
    + left. split; [split|]; [assumption | now apply Hmax | reflexivity].
    + right. split; [|reflexivity].
      apply Qnot_lt_le. intros C. apply Hmax in C. discriminate.
  - left. split; [|reflexivity].
    apply Qnot_lt_le. intros C. apply Hmin in C. discriminate.
Qed.

Lemma convert_to_fixed_point_q15_small v :
  valid v = true -> is_finite v = true ->
  -1 <= SF2Q v <= QuantizerSpec.q15_max ->
  astype_int16 (np_round (fmul v f_32768))
  = Some (round_half_even (SF2Q v * 32768)).
Proof.
  intros V F [Hl Hu]. unfold QuantizerSpec.q15_max in Hu.
  destruct (fmul_32768_small v V F ltac:(lra)) as [Fy Hy].
  rewrite astype_int16_np_round; [| assumption |].
  - f_equal. now apply round_half_even_comp.
  - rewrite (round_half_even_comp _ _ Hy). split.
    + apply round_half_even_ge. change (inject_Z (-32768)) with (-32768). lra.
    + apply round_half_even_le. change (inject_Z 32767) with 32767. lra.
Qed.

(** Both scripts round the same number, although they clamp at different
    upper bounds. *)
Lemma quantizers_round_alike x :
  valid x = true -> is_finite x = true ->
  convert_to_fixed_point_q15 x
  = Some (round_half_even (SF2Q (clamp x) * 32768)).
Proof.
  intros V F. unfold convert_to_fixed_point_q15.
  pose proof SF2Q_0_999969 as C9. unfold QuantizerSpec.q15_max in *.
  destruct (np_clip_cases x V F) as [[H ->] | [[H ->] | [H ->]]];
    destruct (clamp_cases x V F) as [[H' E] | [[H' E] | [H' E]]];
    unfold QuantizerSpec.q15_max in *; rewrite E; try lra.
  - reflexivity.
  - apply convert_to_fixed_point_q15_small; try assumption.
    unfold QuantizerSpec.q15_max. lra.
  - reflexivity.
  - change (astype_int16 (np_round (fmul f_0_999969 f_32768))) with (Some 32767%Z).
    f_equal. apply Z.le_antisymm.
    + apply round_half_even_ge_half. change (inject_Z 32767) with 32767. lra.
    + apply round_half_even_le. change (inject_Z 32767) with 32767. lra.
Qed.

Local Open Scope Z_scope.

(** *** Inputs outside the Q1.15 range *)

Lemma clamp_above x : flt f_q15_max x = true -> clamp x = f_q15_max.
Proof. intros H. unfold clamp, py_min. now rewrite H. Qed.

Lemma clamp_below x : flt x f_minus_one = true -> clamp x = f_minus_one.
Proof.
  intros H. destruct x as [s | [ | ] | | [ | ] m e]; try discriminate.
  - reflexivity.
  - unfold clamp, py_min, py_max.
    change (flt f_q15_max (S754_finite true m e)) with false. cbv iota.
    unfold flt, SFltb, SFcompare, f_minus_one in *.
    rewrite Z.compare_antisym, Pos.compare_cont_antisym.
    destruct (e ?= -52); try discriminate; [|reflexivity].
    cbn [CompOpp] in *.
    destruct (Pos.compare_cont Eq m 4503599627370496); try discriminate.
    reflexivity.
Qed.

Lemma float_to_q15_hex_clamp x y :
  clamp x = clamp y -> float_to_q15_hex x = float_to_q15_hex y.
Proof. intros H. unfold float_to_q15_hex, q15_word. now rewrite H. Qed.

(** *** The specification's clamp *)

Local Open Scope Q_scope.

Lemma spec_clamp_range q :
  -1 <= QuantizerSpec.clamp q <= QuantizerSpec.q15_max.
Proof.
  unfold QuantizerSpec.clamp, QuantizerSpec.q15_max.
  destruct (Qle_bool (-1) q) eqn:E1; [|lra].
  apply Qle_bool_iff in E1.
  destruct (Qle_bool q (32767 # 32768)) eqn:E2; [|lra].
  apply Qle_bool_iff in E2. lra.
Qed.

Lemma spec_round_range q :
  (-32768 <= round_half_even (QuantizerSpec.clamp q * 32768) <= 32767)%Z.
Proof.
  pose proof (spec_clamp_range q) as [Hl Hu].
  unfold QuantizerSpec.q15_max in Hu. split.
  - apply round_half_even_ge. change (inject_Z (-32768)) with (-32768). lra.
  - apply round_half_even_le. change (inject_Z 32767) with 32767. lra.
Qed.

Lemma decode_to_unsigned n :
  (-32768 <= n <= 32767)%Z ->
  QuantizerSpec.decode (to_unsigned n) == inject_Z n / 32768.
Proof.
  intros H. unfold QuantizerSpec.decode, to_unsigned.
  destruct (Z.ltb_spec n 0).
  - destruct (Z.leb_spec 32768 (n + 65536)); [|lia].
    now replace (n + 65536 - 65536)%Z with n by lia.
  - destruct (Z.leb_spec 32768 n); [lia|]. reflexivity.
Qed.

Local Open Scope Z_scope.

(** *** Reading and writing in [convert_file] *)

Lemma append_assoc (a b c : string) : ((a ++ b) ++ c = a ++ (b ++ c))%string.
Proof. induction a as [ | ch a IH]; cbn; [reflexivity | now rewrite IH]. Qed.

Lemma append_nil_r (a : string) : (a ++ "" = a)%string.
Proof. induction a as [ | ch a IH]; cbn; [reflexivity | now rewrite IH]. Qed.

Section ConvertFileProofs.
Variable parse_float : string -> option float.

Lemma parsed_app a b :
  parsed parse_float (a ++ b) = parsed parse_float a ++ parsed parse_float b.
Proof.
  induction a as [ | tok a IH]; [reflexivity|]. cbn [app parsed].
  destruct tok; [exact IH|].
  destruct (parse_float _); cbn [app]; now rewrite IH.
Qed.

Lemma malformed_app a b :
  malformed parse_float (a ++ b)
  = malformed parse_float a ++ malformed parse_float b.
Proof.
  induction a as [ | tok a IH]; [reflexivity|]. cbn [app malformed].
  destruct tok; [exact IH|].
  destruct (parse_float _); cbn [app]; now rewrite IH.
Qed.

Lemma read_tokens_spec input_path toks : forall st,
  fold_left (read_token parse_float input_path) toks st
  = {| values := values st ++ parsed parse_float toks;
       printed := printed st
                  ++ map (fun tok => warning tok input_path)
                       (malformed parse_float toks) |}.
Proof.
  induction toks as [ | tok toks IH]; intros st; cbn [fold_left parsed malformed map].
  - rewrite !app_nil_r. now destruct st.
  - rewrite IH. unfold read_token.
    destruct tok as [ | c tok]; [reflexivity|].
    destruct (parse_float (String c tok)); cbn [values printed map];
      now rewrite <- !app_assoc.
Qed.

Lemma read_lines_spec input_path lines : forall st,
  fold_left (read_line parse_float input_path) lines st
  = {| values := values st ++ parsed parse_float (tokens lines);
       printed := printed st
                  ++ map (fun tok => warning tok input_path)
                       (malformed parse_float (tokens lines)) |}.
Proof.
  induction lines as [ | line lines IH]; intros st.
  - cbn. rewrite !app_nil_r. now destruct st.
  - cbn [fold_left]. rewrite IH. unfold read_line at 1 2.
    rewrite read_tokens_spec. cbn [values printed].
    unfold tokens. cbn [flat_map].
    now rewrite parsed_app, malformed_app, map_app, !app_assoc.
Qed.

Lemma read_file_spec input_path lines :
  read_file parse_float input_path lines
  = {| values := parsed parse_float (tokens lines);
       printed := map (fun tok => warning tok input_path)
                    (malformed parse_float (tokens lines)) |}.
Proof. unfold read_file. now rewrite read_lines_spec. Qed.

Lemma parsed_valid toks :
  (forall tok val, parse_float tok = Some val -> valid val = true) ->
  Forall (fun val => valid val = true) (parsed parse_float toks).
Proof.
  intros H. induction toks as [ | tok toks IH]; [constructor|].
  cbn [parsed]. destruct tok as [ | c tok]; [exact IH|].
  destruct (parse_float (String c tok)) eqn:E; [|exact IH].
  constructor; [eapply H; exact E | exact IH].
Qed.
End ConvertFileProofs.

Lemma write_values_spec vals :
  Forall (fun val => valid val = true) vals ->
  forall written, exists hexes,
    Forall2 (fun val hex_val => float_to_q15_hex val = Some hex_val)
      vals hexes /\
    write_values vals written = Some (written ++ unlines hexes)%string.
Proof.
  induction 1 as [ | val vals V _ IH]; intros written.
  - exists []. split; [constructor|]. cbn [write_values unlines].
    now rewrite append_nil_r.
  - destruct (float_to_q15_hex_total val V) as (w & _ & _ & H).
    destruct (IH (written ++ QuantizerSpec.format_hex w ++ String "010" "")%string)
      as (hexes & F2 & E).
    exists (QuantizerSpec.format_hex w :: hexes).
    split; [constructor; assumption|].
    cbn [write_values unlines]. rewrite H, E. f_equal.
    rewrite !append_assoc. reflexivity.
Qed.

Lemma write_values_finite vals :
  Forall (fun val => valid val = true) vals ->
  Forall (fun val => is_finite val = true) vals ->
  forall hexes,
    Forall2 (fun val hex_val => float_to_q15_hex val = Some hex_val)
      vals hexes ->
    hexes = QuantizerSpec.quantize_sequence (map SF2Q vals).
Proof.
  intros V F hexes H. revert V F.
  induction H as [ | val h vals hexes E _ IH]; intros V F; [reflexivity|].
  inversion V as [ | ? ? V1 V2]; inversion F as [ | ? ? F1 F2]; subst.
  cbn [map QuantizerSpec.quantize_sequence].
  rewrite (float_to_q15_hex_quantize val V1 F1) in E. inversion E. f_equal. now apply IH.
Qed.

(** *** The two scripts write the same lines *)

Lemma q15_hex_float_to_q15_hex x :
  valid x = true -> is_finite x = true ->
  q15_hex x = float_to_q15_hex x.
Proof.
  intros V F. unfold float_to_q15_hex, q15_hex, hex_of_int16.
  rewrite (q15_word_clamp x V), (quantizers_round_alike x V F).
  destruct (scale_round_clamp x V) as [_ R].
  now rewrite land_0xFFFF.
Qed.

Lemma save_q15_hex_write_values arr :
  Forall (fun val => valid val = true) arr ->
  Forall (fun val => is_finite val = true) arr ->
  forall written,
    write_values arr written
    = match save_q15_hex arr with
      | Some text => Some (written ++ text)%string
      | None => None
      end.
Proof.
  intros V F. revert F.
  induction V as [ | val arr V1 _ IH]; intros F written.
  - cbn. now rewrite append_nil_r.
  - inversion F as [ | ? ? F1 F2]; subst.
    cbn [write_values save_q15_hex].
    rewrite (q15_hex_float_to_q15_hex val V1 F1).
    destruct (float_to_q15_hex val) as [hex_val | ]; [|reflexivity].
    rewrite (IH F2). destruct (save_q15_hex arr); [|reflexivity].
    f_equal. now rewrite !append_assoc.
Qed.

Example convert_file_sample :
  convert_file parse_sample "in.txt" "out.txt"
    ["0.5 1e-x"; " -0.5 nan "]%string
  = Some {| out_file := unlines ["4000"; "C000"; "8000"]%string;
            stdout := ["Warning: Could not parse '1e-x' in in.txt";
                       "Converted in.txt -> out.txt (3 values)"]%string |}.
Proof. reflexivity. Qed.

Local Open Scope Q_scope.

(** ** The claims *)

(** C1. For every finite double, [float_to_q15_hex] computes the four
    steps of the specification on the exact value of its input: the value
    is clamped to [-1, 32767/32768], the clamped value times 32768 is
    rounded to an integer nearest to it, the integer is clamped to
    [-32768, 32767], a negative result gets 65536 added; the word that is
    formatted lies in [0, 65535]. *)
Theorem float_to_q15_hex_four_steps x :
  valid x = true -> is_finite x = true ->
  let v := QuantizerSpec.clamp (SF2Q x) in
  let n := round_half_even (v * 32768) in
  -1 <= v <= QuantizerSpec.q15_max /\
  QuantizerSpec.nearest_integer (v * 32768) n /\
  q15_word x = Some (QuantizerSpec.encode (QuantizerSpec.guard n)) /\
  float_to_q15_hex x
  = Some (QuantizerSpec.format_hex (QuantizerSpec.quantize (SF2Q x))) /\
  (0 <= QuantizerSpec.quantize (SF2Q x) <= 65535)%Z.
Proof.
  intros V F v n.
  split; [apply spec_clamp_range|].
  split; [apply round_half_even_nearest|].
  split; [exact (q15_word_quantize x V F)|].
  split; [exact (float_to_q15_hex_quantize x V F)|].
  apply quantize_range.
Qed.

Lemma float_to_q15_hex_four_steps_witness :
  valid f_half = true /\ is_finite f_half = true /\
  float_to_q15_hex f_half
  = Some (QuantizerSpec.format_hex (QuantizerSpec.quantize (SF2Q f_half))).
Proof.
  split; [reflexivity|]. split; [reflexivity|].
  apply (float_to_q15_hex_four_steps f_half); reflexivity.
Defined.

(** C2. Quantisation saturates at the Q1.15 boundaries: 0.999969482421875
    gives 7FFF, -1.0 gives 8000, and every input above the upper bound or
    below the lower bound gives what the nearest bound gives; so do 1.5
    and -2.0. *)
Theorem float_to_q15_hex_saturates x :
  flt f_q15_max x = true \/ flt x f_minus_one = true ->
  float_to_q15_hex x
  = float_to_q15_hex (if flt f_q15_max x then f_q15_max else f_minus_one) /\
  float_to_q15_hex f_q15_max = Some "7FFF"%string /\
  float_to_q15_hex f_minus_one = Some "8000"%string /\
  float_to_q15_hex f_1_5 = float_to_q15_hex f_q15_max /\
  float_to_q15_hex f_minus_two = float_to_q15_hex f_minus_one.
Proof.
  intros H. split; [|repeat split].
  apply float_to_q15_hex_clamp.
  destruct (flt f_q15_max x) eqn:E.
  - now rewrite clamp_above.
  - destruct H as [H | H]; [discriminate|]. now rewrite clamp_below.
Qed.

Lemma float_to_q15_hex_saturates_witness :
  (flt f_q15_max f_1_5 = true \/ flt f_1_5 f_minus_one = true) /\
  float_to_q15_hex f_1_5 = float_to_q15_hex f_q15_max.
Proof.
  split; [left; reflexivity|].
  apply (float_to_q15_hex_saturates f_1_5). left. reflexivity.
Defined.

(** C3. Round trip: for every finite double, the word printed by
    [float_to_q15_hex], read back as a signed 16-bit integer and divided
    by 32768, is within 1/32768 of the clamped input. *)
Theorem q15_round_trip_error x :
  valid x = true -> is_finite x = true ->
  exists s, float_to_q15_hex x = Some s /\
    Qabs (QuantizerSpec.decode (parse_hex s) - QuantizerSpec.clamp (SF2Q x))
    <= 1 # 32768.
Proof.
  intros V F.
  pose proof (round_half_even_nearest
                (QuantizerSpec.clamp (SF2Q x) * 32768)) as N.
  eexists. split; [exact (float_to_q15_hex_quantize x V F)|].
  destruct (word_checked _ (quantize_range (SF2Q x))) as [_ ->].
  unfold QuantizerSpec.quantize.
  pose proof (spec_round_range (SF2Q x)) as G.
  change QuantizerSpec.encode with to_unsigned.
  rewrite <- handle_overflow_guard, handle_overflow_id by exact G.
  rewrite decode_to_unsigned by exact G.
  apply Qabs_Qle_condition in N. apply Qabs_Qle_condition.
  set (n := inject_Z (round_half_even (QuantizerSpec.clamp (SF2Q x) * 32768))) in *.
  set (v := QuantizerSpec.clamp (SF2Q x)) in *.
  destruct N as [N1 N2]. unfold Qdiv. change (/ 32768) with (1 # 32768).
  split; lra.
Qed.

Lemma q15_round_trip_error_witness :
  valid f_minus_half = true /\ is_finite f_minus_half = true /\
  exists s, float_to_q15_hex f_minus_half = Some s /\
    Qabs (QuantizerSpec.decode (parse_hex s)
          - QuantizerSpec.clamp (SF2Q f_minus_half)) <= 1 # 32768.
Proof.
  split; [reflexivity|]. split; [reflexivity|].
  apply (q15_round_trip_error f_minus_half); reflexivity.
Defined.

(** C4. For every double, NaN and the infinities included, the string
    returned by [float_to_q15_hex] has length 4 and holds uppercase
    hexadecimal digits only. *)
Theorem float_to_q15_hex_format x :
  valid x = true ->
  exists w s,
    q15_word x = Some w /\ (0 <= w <= 65535)%Z /\
    float_to_q15_hex x = Some s /\
    String.length s = 4%nat /\ all_chars is_upper_hex s = true.
Proof.
  intros V. destruct (float_to_q15_hex_total x V) as (w & W & R & H).
  exists w. eexists. split; [exact W|]. split; [exact R|].
  split; [exact H|]. apply format_hex_shape.
Qed.

Lemma float_to_q15_hex_format_witness :
  valid f_nan = true /\
  exists w s,
    q15_word f_nan = Some w /\ (0 <= w <= 65535)%Z /\
    float_to_q15_hex f_nan = Some s /\
    String.length s = 4%nat /\ all_chars is_upper_hex s = true.
Proof.
  split; [reflexivity|]. apply (float_to_q15_hex_format f_nan). reflexivity.
Defined.

(** C5. The secondary overflow guard never fires: after the clamp,
    [int(round(value * 32768))] lies in [-32768, 32767] and the guard
    returns it unchanged. *)
Theorem overflow_guard_unreachable x :
  valid x = true ->
  exists n, scale_round (clamp x) = Some n /\
    (-32768 <= n <= 32767)%Z /\ handle_overflow n = n.
Proof.
  intros V. destruct (scale_round_clamp x V) as [E R].
  eexists. split; [exact E|]. split; [exact R|].
  now apply handle_overflow_id.
Qed.

Lemma overflow_guard_unreachable_witness :
  valid f_q15_max = true /\
  exists n, scale_round (clamp f_q15_max) = Some n /\
    (-32768 <= n <= 32767)%Z /\ handle_overflow n = n.
Proof.
  split; [reflexivity|].
  apply (overflow_guard_unreachable f_q15_max). reflexivity.
Defined.

(** C6. The two quantisers agree: for every finite double, the line
    [save_q15_hex] writes for it is the string [float_to_q15_hex]
    returns, although one clamps at 0.999969482421875 and the other at
    0.999969. *)
Theorem quantizers_agree x :
  valid x = true -> is_finite x = true ->
  exists s, float_to_q15_hex x = Some s /\ q15_hex x = Some s.
Proof.
  intros V F. rewrite (q15_hex_float_to_q15_hex x V F).
  destruct (float_to_q15_hex_total x V) as (w & _ & _ & H). eauto.
Qed.

Lemma quantizers_agree_witness :
  valid f_0_999969 = true /\ is_finite f_0_999969 = true /\
  exists s, float_to_q15_hex f_0_999969 = Some s /\
            q15_hex f_0_999969 = Some s.
Proof.
  split; [reflexivity|]. split; [reflexivity|].
  apply (quantizers_agree f_0_999969); reflexivity.
Defined.

(** C7. The writing loop of [convert_file] converts the values in input
    order, one line per value: the lines written are the strings
    [float_to_q15_hex] returns for the values, in the same order and of
    the same number, and for finite values they are the specification's
    [quantize_sequence] of the values; 0.0, 0.5, -0.5 give 0000, 4000,
    C000. *)
Theorem write_values_in_order vals :
  Forall (fun val => valid val = true) vals ->
  exists hexes,
    write_values vals "" = Some (unlines hexes) /\
    List.length hexes = List.length vals /\
    Forall2 (fun val hex_val => float_to_q15_hex val = Some hex_val)
      vals hexes /\
    (Forall (fun val => is_finite val = true) vals ->
     hexes = QuantizerSpec.quantize_sequence (map SF2Q vals)) /\
    write_values [f_zero; f_half; f_minus_half] ""
    = Some (unlines ["0000"; "4000"; "C000"]%string) /\
    QuantizerSpec.quantize_sequence [0; 1 # 2; - (1 # 2)]%Q
    = ["0000"; "4000"; "C000"]%string.
Proof.
  intros V. destruct (write_values_spec vals V "") as (hexes & F2 & E).
  exists hexes. split; [exact E|].
  split; [symmetry; eapply Forall2_length; exact F2|].
  split; [exact F2|].
  split; [|split; reflexivity].
  intros F. now apply write_values_finite.
Qed.

Lemma write_values_in_order_witness :
  Forall (fun val => valid val = true) [f_half; f_nan; f_minus_two] /\
  exists hexes,
    write_values [f_half; f_nan; f_minus_two] "" = Some (unlines hexes) /\
    List.length hexes = 3%nat.
Proof.
  assert (V : Forall (fun val => valid val = true)
                [f_half; f_nan; f_minus_two])
    by (repeat constructor).
  split; [exact V|].
  destruct (write_values_in_order [f_half; f_nan; f_minus_two] V)
    as (hexes & E & L & _).
  exists hexes. split; [exact E | exact L].
Defined.

(** C8. A token that does not parse is skipped with a warning and the
    conversion goes on: [convert_file] returns, the output file holds one
    line for each token that parses, in input order, and one warning is
    printed for each token that does not. *)
Theorem convert_file_skips_malformed parse_float input_path output_path lines :
  (forall tok val, parse_float tok = Some val -> valid val = true) ->
  let toks := tokens lines in
  exists hexes,
    Forall2 (fun val hex_val => float_to_q15_hex val = Some hex_val)
      (parsed parse_float toks) hexes /\
    convert_file parse_float input_path output_path lines
    = Some {| out_file := unlines hexes;
              stdout :=
                map (fun tok => warning tok input_path)
                  (malformed parse_float toks)
                ++ ["Converted " ++ input_path ++ " -> " ++ output_path
                    ++ " (" ++ str_of_nat (List.length hexes)
                    ++ " values)"]%string |}.
Proof.
  intros P toks. unfold convert_file. rewrite read_file_spec.
  cbn [values printed]. fold toks.
  destruct (write_values_spec _ (parsed_valid parse_float toks P) "")
    as (hexes & F2 & E).
  exists hexes. split; [exact F2|]. rewrite E. cbn [append].
  now rewrite (Forall2_length F2).
Qed.

Lemma convert_file_skips_malformed_witness :
  (forall tok val, parse_sample tok = Some val -> valid val = true) /\
  exists hexes,
    Forall2 (fun val hex_val => float_to_q15_hex val = Some hex_val)
      (parsed parse_sample (tokens ["0.5 1e-x"; " -0.5 nan "]%string)) hexes /\
    convert_file parse_sample "in.txt" "out.txt"
      ["0.5 1e-x"; " -0.5 nan "]%string
    = Some {| out_file := unlines hexes;
              stdout :=
                map (fun tok => warning tok "in.txt")
                  (malformed parse_sample
                     (tokens ["0.5 1e-x"; " -0.5 nan "]%string))
                ++ ["Converted " ++ "in.txt" ++ " -> " ++ "out.txt"
                    ++ " (" ++ str_of_nat (List.length hexes)
                    ++ " values)"]%string |}.
Proof.
  assert (P : forall tok val, parse_sample tok = Some val -> valid val = true).
  { intros tok val. unfold parse_sample.
    destruct (String.eqb tok "0.5"); [intros [= <-]; reflexivity|].
    destruct (String.eqb tok "-0.5"); [intros [= <-]; reflexivity|].
    destruct (String.eqb tok "nan"); [intros [= <-]; reflexivity|].
    discriminate. }
  split; [exact P|].
  exact (convert_file_skips_malformed parse_sample "in.txt" "out.txt"
           ["0.5 1e-x"; " -0.5 nan "]%string P).
Defined.

(** C9. On the inputs that are not finite [float_to_q15_hex] returns a
    string: 8000 for a NaN, which [min] lets through and [max] replaces by
    -1.0, 7FFF for +infinity and 8000 for -infinity. *)
Theorem float_to_q15_hex_nonfinite :
  py_min f_nan f_q15_max = f_nan /\
  py_max f_minus_one f_nan = f_minus_one /\
  float_to_q15_hex f_nan = Some "8000"%string /\
  float_to_q15_hex f_inf = Some "7FFF"%string /\
  float_to_q15_hex f_minus_inf = Some "8000"%string.
Proof. repeat split. Qed.

(** C10. Ties round to even in both quantisers: when the clamped value
    times 32768 is k + 1/2, the rounded integer is k if k is even and
    k + 1 if not; 1/65536 gives 0000 and 3/65536 gives 0002. *)
Theorem ties_round_to_even x k :
  valid x = true -> is_finite x = true ->
  QuantizerSpec.clamp (SF2Q x) * 32768 == inject_Z k + (1 # 2) ->
  let n := (if Z.even k then k else k + 1)%Z in
  scale_round (clamp x) = Some n /\
  convert_to_fixed_point_q15 x = Some n /\
  float_to_q15_hex x = Some (QuantizerSpec.format_hex (to_unsigned n)) /\
  q15_hex x = Some (QuantizerSpec.format_hex (to_unsigned n)) /\
  float_to_q15_hex f_1_65536 = Some "0000"%string /\
  q15_hex f_1_65536 = Some "0000"%string /\
  float_to_q15_hex f_3_65536 = Some "0002"%string /\
  q15_hex f_3_65536 = Some "0002"%string.
Proof.
  intros V F T n.
  assert (E : round_half_even (SF2Q (clamp x) * 32768) = n).
  { rewrite (round_half_even_comp _ (QuantizerSpec.clamp (SF2Q x) * 32768))
      by now rewrite clamp_SF2Q.
    now apply round_half_even_tie. }
  destruct (scale_round_clamp x V) as [S R]. rewrite E in S, R.
  pose proof (to_unsigned_range _ R) as W.
  destruct (word_checked _ W) as [Hf _].
  split; [exact S|].
  split; [now rewrite quantizers_round_alike, E|].
  split; [unfold float_to_q15_hex; now rewrite q15_word_clamp, E, Hf|].
  split; [|repeat split].
  unfold q15_hex, hex_of_int16.
  now rewrite quantizers_round_alike, E, land_0xFFFF, Hf.
Qed.

Lemma ties_round_to_even_witness :
  valid f_3_65536 = true /\ is_finite f_3_65536 = true /\
  QuantizerSpec.clamp (SF2Q f_3_65536) * 32768 == inject_Z 1 + (1 # 2) /\
  scale_round (clamp f_3_65536) = Some 2%Z.
Proof.
  split; [reflexivity|]. split; [reflexivity|]. split; [reflexivity|].
  apply (ties_round_to_even f_3_65536 1); reflexivity.
Defined.

(** * Further properties of the two scripts *)

Import PySys TokenSpec ConvertParamsMain ExtractGanFiles Grid SampleParams.

Local Open Scope Z_scope.
Local Open Scope Q_scope.

(** ** More on rounding and clamping *)

Lemma round_half_even_mono q1 q2 :
  q1 <= q2 -> (round_half_even q1 <= round_half_even q2)%Z.
Proof.
  intros H. pose proof (Qfloor_resp_le _ _ H) as Hf.
  destruct (Z.eq_dec (Qfloor q1) (Qfloor q2)) as [E | E].
  - destruct (round_half_even_cases q1) as [[H1 ->] | [[H1 ->] | [H1 ->]]];
      destruct (round_half_even_cases q2) as [[H2 ->] | [[H2 ->] | [H2 ->]]];
      rewrite E in *; try lra; try destruct (Z.even (Qfloor q2)); lia.
  - pose proof (round_half_even_floor q1). pose proof (round_half_even_floor q2).
    lia.
Qed.

Lemma round_half_even_le_half q n :
  q < inject_Z n + (1 # 2) -> (round_half_even q <= n)%Z.
Proof.
  intros H. destruct (Qfloor_bounds q) as [Fl Fu].
  assert (Hf : inject_Z (Qfloor q) < inject_Z (n + 1)).
  { rewrite inject_Z_plus. change (inject_Z 1) with 1. lra. }
  rewrite <- Zlt_Qlt in Hf.
  destruct (Z.eq_dec (Qfloor q) n) as [E | E].
  - destruct (round_half_even_cases q) as [[Hc ->] | [[Hc ->] | [Hc ->]]];
      rewrite E in Hc; try lra; lia.
  - pose proof (round_half_even_floor q). lia.
Qed.

Lemma spec_clamp_mono q1 q2 :
  q1 <= q2 -> QuantizerSpec.clamp q1 <= QuantizerSpec.clamp q2.
Proof.
  intros H. unfold QuantizerSpec.clamp, QuantizerSpec.q15_max.
  destruct (Qle_bool (-1) q1) eqn:A1; destruct (Qle_bool (-1) q2) eqn:A2;
    destruct (Qle_bool q1 (32767 # 32768)) eqn:B1;
    destruct (Qle_bool q2 (32767 # 32768)) eqn:B2;
    try apply Qle_bool_iff in A1; try apply Qle_bool_iff in A2;
    try apply Qle_bool_iff in B1; try apply Qle_bool_iff in B2;
    try (apply not_true_iff_false in A1; rewrite Qle_bool_iff in A1);
    try (apply not_true_iff_false in A2; rewrite Qle_bool_iff in A2);
    try (apply not_true_iff_false in B1; rewrite Qle_bool_iff in B1);
    try (apply not_true_iff_false in B2; rewrite Qle_bool_iff in B2);
    lra.
Qed.

Lemma spec_clamp_cases q :
  (q < -1 /\ QuantizerSpec.clamp q = -1) \/
  (-1 <= q <= QuantizerSpec.q15_max /\ QuantizerSpec.clamp q = q) \/
  (QuantizerSpec.q15_max < q /\ QuantizerSpec.clamp q = QuantizerSpec.q15_max).
Proof.
  unfold QuantizerSpec.clamp.
  destruct (Qle_bool (-1) q) eqn:A.
  - apply Qle_bool_iff in A.
    destruct (Qle_bool q QuantizerSpec.q15_max) eqn:B.
    + apply Qle_bool_iff in B. right. left. auto.
    + apply not_true_iff_false in B. rewrite Qle_bool_iff in B.
      right. right. split; [lra | reflexivity].
  - apply not_true_iff_false in A. rewrite Qle_bool_iff in A.
    left. split; [lra | reflexivity].
Qed.

(** The signed integer both scripts compute for a finite double. *)
Lemma scale_round_spec x :
  valid x = true -> is_finite x = true ->
  scale_round (clamp x)
  = Some (round_half_even (QuantizerSpec.clamp (SF2Q x) * 32768)).
Proof.
  intros V F. destruct (scale_round_clamp x V) as [-> _]. f_equal.
  apply round_half_even_comp. now rewrite clamp_SF2Q.
Qed.

Lemma SFleb_SF2Q x y :
  valid x = true -> valid y = true ->
  is_finite x = true -> is_finite y = true ->
  SFleb x y = true <-> SF2Q x <= SF2Q y.
Proof.
  intros Vx Vy Fx Fy. unfold SFleb.
  rewrite (SFcompare_SF2Q x y) by assumption.
  destruct (Qcompare_spec (SF2Q x) (SF2Q y)) as [H | H | H];
    split; intros C; try reflexivity; try discriminate; lra.
Qed.

Lemma scale_round_nonfinite x :
  is_finite x = false ->
  scale_round (clamp x)
  = Some (match x with S754_infinity false => 32767 | _ => -32768 end)%Z.
Proof.
  intros F. destruct x as [ | [ | ] | | ]; try discriminate F;
    vm_compute; reflexivity.
Qed.

Lemma scale_round_mono x y :
  valid x = true -> valid y = true -> SFleb x y = true ->
  forall nx ny,
    scale_round (clamp x) = Some nx -> scale_round (clamp y) = Some ny ->
    (nx <= ny)%Z.
Proof.
  intros Vx Vy L nx ny Ex Ey.
  destruct (scale_round_clamp x Vx) as [Ex' Rx].
  destruct (scale_round_clamp y Vy) as [Ey' Ry].
  rewrite Ex in Ex'. rewrite Ey in Ey'.
  injection Ex' as Ex'. injection Ey' as Ey'.
  rewrite <- Ex' in Rx. rewrite <- Ey' in Ry. clear Ex' Ey'.
  destruct (is_finite x) eqn:Fx; destruct (is_finite y) eqn:Fy.
  - rewrite (scale_round_spec x Vx Fx) in Ex.
    rewrite (scale_round_spec y Vy Fy) in Ey.
    injection Ex as <-. injection Ey as <-.
    apply round_half_even_mono.
    apply (SFleb_SF2Q x y Vx Vy Fx Fy) in L.
    pose proof (spec_clamp_mono _ _ L). lra.
  - rewrite (scale_round_nonfinite y Fy) in Ey. injection Ey as <-.
    destruct y as [ | [ | ] | | ]; try discriminate Fy;
      destruct x as [ | | | ]; try discriminate Fx; try discriminate L; lia.
  - rewrite (scale_round_nonfinite x Fx) in Ex. injection Ex as <-.
    destruct x as [ | [ | ] | | ]; try discriminate Fx;
      destruct y as [ | | | ]; try discriminate Fy; try discriminate L; lia.
  - rewrite (scale_round_nonfinite x Fx) in Ex. injection Ex as <-.
    rewrite (scale_round_nonfinite y Fy) in Ey. injection Ey as <-.
    destruct x as [ | [ | ] | | ]; try discriminate Fx;
      destruct y as [ | [ | ] | | ]; try discriminate Fy;
      try discriminate L; lia.
Qed.

Lemma format_hex_inj w1 w2 :
  (0 <= w1 <= 65535)%Z -> (0 <= w2 <= 65535)%Z ->
  QuantizerSpec.format_hex w1 = QuantizerSpec.format_hex w2 -> w1 = w2.
Proof.
  intros H1 H2 E.
  destruct (word_checked w1 H1) as [_ P1].
  destruct (word_checked w2 H2) as [_ P2]. congruence.
Qed.

Lemma to_unsigned_inj n1 n2 :
  (-32768 <= n1 <= 32767)%Z -> (-32768 <= n2 <= 32767)%Z ->
  to_unsigned n1 = to_unsigned n2 -> n1 = n2.
Proof.
  unfold to_unsigned. intros H1 H2.
  destruct (Z.ltb_spec n1 0); destruct (Z.ltb_spec n2 0); lia.
Qed.

(** The integer, the word and the string of a double. *)
Lemma quantizer_outputs x :
  valid x = true ->
  exists n,
    (-32768 <= n <= 32767)%Z /\
    scale_round (clamp x) = Some n /\
    q15_word x = Some (to_unsigned n) /\
    float_to_q15_hex x = Some (QuantizerSpec.format_hex (to_unsigned n)).
Proof.
  intros V. destruct (scale_round_clamp x V) as [E R].
  eexists. split; [exact R|]. split; [exact E|].
  split; [exact (q15_word_clamp x V)|].
  unfold float_to_q15_hex. rewrite (q15_word_clamp x V).
  now destruct (word_checked _ (to_unsigned_range _ R)) as [-> _].
Qed.

Lemma quantizers_round_alike_infinite x :
  is_finite x = false -> is_nan x = false ->
  convert_to_fixed_point_q15 x
  = Some (round_half_even (SF2Q (clamp x) * 32768)).
Proof. destruct x as [ | [ | ] | | ]; try discriminate; reflexivity. Qed.

Lemma quantizers_round_alike_not_nan x :
  valid x = true -> is_nan x = false ->
  convert_to_fixed_point_q15 x
  = Some (round_half_even (SF2Q (clamp x) * 32768)).
Proof.
  intros V N. destruct (is_finite x) eqn:F.
  - now apply quantizers_round_alike.
  - now apply quantizers_round_alike_infinite.
Qed.

Lemma q15_hex_not_nan x :
  valid x = true -> is_nan x = false -> q15_hex x = float_to_q15_hex x.
Proof.
  intros V N. unfold float_to_q15_hex, q15_hex, hex_of_int16.
  rewrite (q15_word_clamp x V), (quantizers_round_alike_not_nan x V N).
  destruct (scale_round_clamp x V) as [_ R].
  now rewrite land_0xFFFF.
Qed.

(** On a point of the Q1.15 grid the rounding is exact. *)
Lemma scale_round_grid x k :
  valid x = true -> is_finite x = true ->
  (-32768 <= k <= 32767)%Z ->
  SF2Q x == inject_Z k / 32768 ->
  scale_round (clamp x) = Some k.
Proof.
  intros V F K E. rewrite (scale_round_spec x V F). f_equal.
  assert (B : -1 <= SF2Q x <= QuantizerSpec.q15_max).
  { rewrite E. unfold QuantizerSpec.q15_max, Qdiv.
    change (/ 32768) with (1 # 32768).
    destruct K as [K1 K2]. rewrite Zle_Qle in K1, K2.
    change (inject_Z (-32768)) with (-32768) in K1.
    change (inject_Z 32767) with 32767 in K2. lra. }
  destruct (spec_clamp_cases (SF2Q x)) as [[H _] | [[_ ->] | [H _]]]; try lra.
  rewrite (round_half_even_comp _ (inject_Z k)).
  - apply round_half_even_Z.
  - rewrite E. field.
Qed.

(** The rounded integer is zero, or negative, on these values only. *)
Lemma round_half_even_zero_iff q :
  round_half_even q = 0%Z <-> - (1 # 2) <= q <= 1 # 2.
Proof.
  split.
  - intros E. pose proof (round_half_even_nearest q) as N.
    rewrite E in N. apply Qabs_Qle_condition in N.
    change (inject_Z 0) with 0 in N. lra.
  - intros [Hl Hu]. apply Z.le_antisymm.
    + destruct (Qlt_le_dec q (1 # 2)) as [L | L].
      * apply round_half_even_le_half. change (inject_Z 0) with 0. lra.
      * rewrite (round_half_even_tie q 0); [reflexivity|].
        change (inject_Z 0) with 0. lra.
    + destruct (Qlt_le_dec (- (1 # 2)) q) as [L | L].
      * apply round_half_even_ge_half. change (inject_Z 0) with 0. lra.
      * rewrite (round_half_even_tie q (-1)); [reflexivity|].
        change (inject_Z (-1)) with (-1). lra.
Qed.

Lemma round_half_even_neg_iff q :
  (round_half_even q < 0)%Z <-> q < - (1 # 2).
Proof.
  split.
  - intros E. apply Qnot_le_lt. intros C.
    destruct (Qlt_le_dec (1 # 2) q) as [L | L].
    + assert (0 <= round_half_even q)%Z; [|lia].
      apply round_half_even_ge_half. change (inject_Z 0) with 0. lra.
    + assert (round_half_even q = 0%Z) by (apply round_half_even_zero_iff; lra).
      lia.
  - intros H. assert (round_half_even q <= -1)%Z; [|lia].
    apply round_half_even_le_half. change (inject_Z (-1)) with (-1). lra.
Qed.

Lemma spec_clamp_small q :
  - (1 # 2) <= QuantizerSpec.clamp q * 32768 <= 1 # 2
  <-> - (1 # 65536) <= q <= 1 # 65536.
Proof.
  destruct (spec_clamp_cases q) as [[H ->] | [[H ->] | [H ->]]];
    unfold QuantizerSpec.q15_max in *; split; intros; lra.
Qed.

Lemma spec_clamp_negative q :
  QuantizerSpec.clamp q * 32768 < - (1 # 2) <-> q < - (1 # 65536).
Proof.
  destruct (spec_clamp_cases q) as [[H ->] | [[H ->] | [H ->]]];
    unfold QuantizerSpec.q15_max in *; split; intros; lra.
Qed.

Lemma spec_clamp_lipschitz q1 q2 d :
  - d <= q1 - q2 <= d ->
  - d <= QuantizerSpec.clamp q1 - QuantizerSpec.clamp q2 <= d.
Proof.
  intros H.
  destruct (spec_clamp_cases q1) as [[H1 ->] | [[H1 ->] | [H1 ->]]];
    destruct (spec_clamp_cases q2) as [[H2 ->] | [[H2 ->] | [H2 ->]]];
    unfold QuantizerSpec.q15_max in *; lra.
Qed.

Lemma spec_clamp_close q1 q2 d :
  - d < q1 - q2 < d ->
  - d < QuantizerSpec.clamp q1 - QuantizerSpec.clamp q2 < d.
Proof.
  intros H.
  destruct (spec_clamp_cases q1) as [[H1 ->] | [[H1 ->] | [H1 ->]]];
    destruct (spec_clamp_cases q2) as [[H2 ->] | [[H2 ->] | [H2 ->]]];
    unfold QuantizerSpec.q15_max in *; lra.
Qed.

Lemma round_half_even_close q1 q2 :
  -1 < q1 - q2 < 1 ->
  (-1 <= round_half_even q1 - round_half_even q2 <= 1)%Z.
Proof.
  intros H.
  pose proof (round_half_even_nearest q1) as N1.
  pose proof (round_half_even_nearest q2) as N2.
  apply Qabs_Qle_condition in N1, N2.
  assert (L : inject_Z (round_half_even q1 - round_half_even q2) < inject_Z 2).
  { rewrite inject_Z_minus. change (inject_Z 2) with 2. lra. }
  assert (U : inject_Z (-2) < inject_Z (round_half_even q1 - round_half_even q2)).
  { rewrite inject_Z_minus. change (inject_Z (-2)) with (-2). lra. }
  rewrite <- Zlt_Qlt in L, U. lia.
Qed.

(** A double that has the value of a word is converted to the word. *)
Lemma quantize_decoded y w :
  valid y = true -> is_finite y = true ->
  (0 <= w <= 65535)%Z -> SF2Q y == QuantizerSpec.decode w ->
  q15_word y = Some w /\
  float_to_q15_hex y = Some (QuantizerSpec.format_hex w) /\
  q15_hex y = Some (QuantizerSpec.format_hex w).
Proof.
  intros V F W E.
  set (k := (if 32768 <=? w then w - 65536 else w)%Z).
  assert (K : (-32768 <= k <= 32767)%Z)
    by (unfold k; destruct (Z.leb_spec 32768 w); lia).
  assert (U : to_unsigned k = w).
  { unfold to_unsigned, k. destruct (Z.leb_spec 32768 w);
      [destruct (Z.ltb_spec (w - 65536) 0) | destruct (Z.ltb_spec w 0)]; lia. }
  pose proof (scale_round_grid y k V F K E) as S.
  destruct (quantizer_outputs y V) as (n & _ & S' & Wd & H).
  rewrite S in S'. injection S' as <-. rewrite U in Wd, H.
  split; [exact Wd|]. split; [exact H|].
  rewrite q15_hex_not_nan; [exact H | exact V |].
  destruct y; [reflexivity | discriminate F | discriminate F | reflexivity].
Qed.

Local Open Scope Z_scope.

(** ** Strings: reversal, whitespace and tokens *)

Module TokenFacts.

Local Open Scope string_scope.

Lemma rev_onto_app s : forall acc, rev_onto s acc = rev_onto s "" ++ acc.
Proof.
  induction s as [ | c s IH]; intros acc; cbn [rev_onto]; [reflexivity|].
  rewrite IH, (IH (String c "")), append_assoc. reflexivity.
Qed.

Lemma rev_onto_append a : forall b acc,
  rev_onto (a ++ b) acc = rev_onto b (rev_onto a acc).
Proof.
  induction a as [ | c a IH]; intros b acc; cbn; [reflexivity | apply IH].
Qed.

Lemma rev_onto_involutive s : rev_onto (rev_onto s "") "" = s.
Proof.
  induction s as [ | c s IH]; [reflexivity|]. cbn [rev_onto].
  rewrite (rev_onto_app s), rev_onto_append, IH. reflexivity.
Qed.

Lemma all_chars_append p a b :
  all_chars p (a ++ b) = all_chars p a && all_chars p b.
Proof.
  induction a as [ | c a IH]; cbn; [reflexivity|].
  now rewrite IH, andb_assoc.
Qed.

Lemma all_chars_rev_onto p s : forall acc,
  all_chars p (rev_onto s acc) = all_chars p s && all_chars p acc.
Proof.
  induction s as [ | c s IH]; intros acc; cbn [rev_onto all_chars];
    [reflexivity|].
  rewrite IH. cbn [all_chars]. destruct (p c), (all_chars p s); reflexivity.
Qed.

Lemma split_from_space cur c s :
  is_space c = true ->
  split_from cur (String c s) = (flush cur ++ split_from "" s)%list.
Proof. intros H. cbn [split_from]. rewrite H. now destruct cur. Qed.

Lemma split_from_nil cur : split_from cur "" = flush cur.
Proof. reflexivity. Qed.

Lemma split_from_word w : forall cur s,
  all_chars (fun c => negb (is_space c)) w = true ->
  split_from cur (w ++ s) = split_from (rev_onto w cur) s.
Proof.
  induction w as [ | c w IH]; intros cur s H; [reflexivity|].
  cbn [all_chars] in H. apply andb_true_iff in H. destruct H as [Hc Hw].
  cbn [append split_from rev_onto].
  apply negb_true_iff in Hc. rewrite Hc. now apply IH.
Qed.

(** A whitespace character ends the token being read. *)
Lemma split_from_sep a : forall cur c b,
  is_space c = true ->
  split_from cur (a ++ String c b)
  = (split_from cur a ++ split_from "" b)%list.
Proof.
  induction a as [ | d a IH]; intros cur c b H.
  - cbn [append]. now rewrite split_from_space, split_from_nil.
  - cbn [append split_from]. destruct (is_space d).
    + destruct cur; rewrite IH by exact H; reflexivity.
    + now apply IH.
Qed.

Lemma split_from_spaces ws :
  all_chars is_space ws = true -> split_from "" ws = [].
Proof.
  induction ws as [ | c ws IH]; intros H; [reflexivity|].
  cbn [all_chars] in H. apply andb_true_iff in H. destruct H as [Hc Hw].
  cbn [split_from]. rewrite Hc. now apply IH.
Qed.

Lemma split_from_trailing a ws : forall cur,
  all_chars is_space ws = true ->
  split_from cur (a ++ ws) = split_from cur a.
Proof.
  intros cur H. destruct ws as [ | c ws]; [now rewrite append_nil_r|].
  cbn [all_chars] in H. apply andb_true_iff in H. destruct H as [Hc Hw].
  rewrite split_from_sep by exact Hc.
  now rewrite split_from_spaces, app_nil_r.
Qed.



(** [strip] changes nothing for [split]. *)
Lemma lstrip_decompose s :
  exists ws, all_chars is_space ws = true /\ s = ws ++ lstrip s.
Proof.
  induction s as [ | c s (ws & H & E)].
  - exists "". split; reflexivity.
  - cbn [lstrip]. destruct (is_space c) eqn:C.
    + exists (String c ws). cbn [all_chars append]. rewrite C, H.
      split; [reflexivity | now rewrite <- E].
    + exists "". split; reflexivity.
Qed.

Lemma split_lstrip s : split (lstrip s) = split s.
Proof.
  unfold split. induction s as [ | c s IH]; [reflexivity|].
  cbn [lstrip]. destruct (is_space c) eqn:C; [|reflexivity].
  cbn [split_from]. now rewrite C.
Qed.

Lemma rstrip_decompose s :
  exists ws, all_chars is_space ws = true /\ s = rstrip s ++ ws.
Proof.
  unfold rstrip.
  destruct (lstrip_decompose (rev_onto s "")) as (ws & H & E).
  exists (rev_onto ws ""). split.
  - now rewrite all_chars_rev_onto, H.
  - rewrite <- (rev_onto_involutive s) at 1. rewrite E at 1.
    rewrite rev_onto_append, (rev_onto_app (lstrip _)). reflexivity.
Qed.

Lemma split_rstrip s : split (rstrip s) = split s.
Proof.
  destruct (rstrip_decompose s) as (ws & H & E).
  rewrite E at 2. unfold split. now rewrite split_from_trailing.
Qed.

Lemma split_strip s : split (strip s) = split s.
Proof. unfold strip. now rewrite split_rstrip, split_lstrip. Qed.

End TokenFacts.
Import TokenFacts.

(** ** Lines of a file and tokens of the whole text *)

Module LineFacts.
Import TokenFacts.

Local Open Scope string_scope.

Lemma newline_is_space : is_space "010" = true.
Proof. reflexivity. Qed.

Lemma split_line cur :
  split (rev_onto (String "010" cur) "") = split (rev_onto cur "").
Proof.
  cbn [rev_onto]. rewrite rev_onto_app. unfold split.
  rewrite split_from_sep by reflexivity. cbn. now rewrite app_nil_r.
Qed.

Lemma split_rev_onto_sep cur c s :
  is_space c = true ->
  split (rev_onto cur "" ++ String c s)
  = (split (rev_onto cur "") ++ split s)%list.
Proof. intros H. unfold split. now rewrite split_from_sep. Qed.

Lemma tokens_lines_from n : forall s cur,
  (String.length s <= n)%nat ->
  flat_map split (lines_from cur s) = split (rev_onto cur "" ++ s).
Proof.
  induction n as [ | n IH]; intros s cur L.
  - destruct s; [|cbn in L; lia]. cbn [lines_from].
    rewrite append_nil_r. destruct cur; [reflexivity|].
    cbn [flat_map]. now rewrite app_nil_r.
  - destruct s as [ | c s].
    + cbn [lines_from]. rewrite append_nil_r. destruct cur; [reflexivity|].
      cbn [flat_map]. now rewrite app_nil_r.
    + cbn [String.length] in L. cbn [lines_from].
      destruct (Ascii.eqb_spec c "010") as [-> | Hn].
      * cbn [flat_map]. rewrite split_line, (IH s "") by lia.
        now rewrite split_rev_onto_sep.
      * destruct (Ascii.eqb_spec c "013") as [-> | Hr].
        -- rewrite split_rev_onto_sep by reflexivity.
           destruct s as [ | d s].
           ++ cbn [flat_map lines_from]. now rewrite split_line.
           ++ destruct (Ascii.eqb_spec d "010") as [-> | Hd].
              ** cbn [flat_map]. cbn [String.length] in L.
                 rewrite split_line, (IH s "") by lia.
                 unfold split at 4. now rewrite split_from_space.
              ** assert (E : match d with
                             | "010"%char =>
                                 rev_onto (String "010" cur) ""
                                 :: lines_from "" s
                             | _ => rev_onto (String "010" cur) ""
                                    :: lines_from "" (String d s)
                             end
                             = rev_onto (String "010" cur) ""
                               :: lines_from "" (String d s)).
                 { destruct d as [[ | ] [ | ] [ | ] [ | ] [ | ] [ | ] [ | ] [ | ]];
                     try reflexivity. now contradiction Hd. }
                 rewrite E. cbn [flat_map].
                 now rewrite split_line, (IH (String d s) "") by lia.
        -- rewrite (IH s (String c cur)) by lia.
           cbn [rev_onto]. rewrite (rev_onto_app cur (String c "")).
           now rewrite append_assoc.
Qed.

Lemma tokens_flat_map_split lines : tokens lines = flat_map split lines.
Proof.
  unfold tokens. induction lines as [ | l lines IH]; [reflexivity|].
  cbn [flat_map]. now rewrite IH, split_strip.
Qed.

(** The tokens [convert_file] reads are the tokens of the whole text:
    how the text is cut into lines does not matter. *)
Lemma tokens_file_lines text : tokens (file_lines text) = split text.
Proof.
  rewrite tokens_flat_map_split. unfold file_lines.
  now rewrite (tokens_lines_from (String.length text) text "").
Qed.

End LineFacts.
Import LineFacts.

(** ** The text files of [np.savetxt] *)

Module SavetxtFacts.
Import TokenFacts LineFacts ExtractGanFiles.

Local Open Scope string_scope.

Lemma split_token v : is_token v -> split v = [v].
Proof.
  intros [Hn Hs]. unfold split.
  rewrite <- (append_nil_r v) at 1.
  rewrite split_from_word by exact Hs. cbn [split_from].
  destruct (rev_onto v "") eqn:E.
  - exfalso. apply Hn. rewrite <- (rev_onto_involutive v), E. reflexivity.
  - rewrite <- E. now rewrite rev_onto_involutive.
Qed.

Lemma split_join_spaces toks : forall rest,
  Forall is_token toks ->
  split (join_spaces toks ++ String "010" rest) = (toks ++ split rest)%list.
Proof.
  induction toks as [ | v toks IH]; intros rest H.
  - cbn [join_spaces append app]. unfold split.
    now rewrite split_from_space.
  - inversion H as [ | ? ? Hv Ht]; subst.
    destruct toks as [ | w toks].
    + cbn [join_spaces]. unfold split at 1.
      rewrite split_from_sep by reflexivity.
      fold (split v). fold (split rest). now rewrite split_token.
    + change (join_spaces (v :: w :: toks))
        with (v ++ " " ++ join_spaces (w :: toks)).
      rewrite !append_assoc.
      change (" " ++ join_spaces (w :: toks) ++ String "010" rest)
        with (String " " (join_spaces (w :: toks) ++ String "010" rest)).
      unfold split at 1. rewrite split_from_sep by reflexivity.
      fold (split v). rewrite split_token by exact Hv.
      cbn [app]. f_equal. apply (IH rest Ht).
Qed.

Lemma digits_not_space d :
  all_chars (fun c => negb (is_space c)) (NilEmpty.string_of_uint d) = true.
Proof. induction d; cbn; auto. Qed.

Lemma zeros_not_space k :
  all_chars (fun c => negb (is_space c)) (zeros k) = true.
Proof. induction k; cbn; auto. Qed.

Lemma fmt_8f_token x : is_token (fmt_8f x).
Proof.
  destruct x as [s | [ | ] | | s m e];
    try (split; [discriminate | reflexivity]).
  - destruct s; split; try discriminate; reflexivity.
  - unfold fmt_8f.
    set (n := Z.to_N _). split.
    + destruct s; cbn [append];
        [discriminate | destruct (digits_of_N _); discriminate].
    + unfold digits_of_N, zfill.
      rewrite !all_chars_append, !digits_not_space, zeros_not_space.
      now destruct s.
Qed.

Lemma split_savetxt X : split (savetxt X) = map fmt_8f (flatten X).
Proof.
  unfold flatten. induction X as [ | row X IH]; [reflexivity|].
  cbn [savetxt List.concat]. rewrite split_join_spaces.
  - now rewrite IH, map_app.
  - apply Forall_forall. intros t Ht. apply in_map_iff in Ht.
    destruct Ht as (x & <- & _). apply fmt_8f_token.
Qed.

End SavetxtFacts.
Import SavetxtFacts.

(** ** Paths *)

Module PathFacts.
Import ConvertParamsMain.

Local Open Scope string_scope.















End PathFacts.
Import PathFacts.

(** ** [main] of [convert_params_to_hex.py] *)

Module MainFacts.
Import ConvertParamsMain PathFacts.

Local Open Scope string_scope.

Section WithParser.
Variable parse_float : string -> option float.
Hypothesis parse_valid :
  forall tok val, parse_float tok = Some val -> valid val = true.






End WithParser.

End MainFacts.
Import MainFacts.

(** ** The hexadecimal files of [extract_gan_parameters.py] *)

Module HexFileFacts.
Import ExtractGanFiles.

Local Open Scope string_scope.

Lemma save_q15_hex_not_nan arr :
  Forall (fun val => valid val = true) arr ->
  Forall (fun val => is_nan val = false) arr ->
  forall written,
    write_values arr written
    = match save_q15_hex arr with
      | Some text => Some (written ++ text)
      | None => None
      end.
Proof.
  intros V N. revert N.
  induction V as [ | val arr V1 _ IH]; intros N written.
  - cbn. now rewrite append_nil_r.
  - inversion N as [ | ? ? N1 N2]; subst.
    cbn [write_values save_q15_hex].
    rewrite (q15_hex_not_nan val V1 N1).
    destruct (float_to_q15_hex val) as [hex_val | ]; [|reflexivity].
    rewrite (IH N2). destruct (save_q15_hex arr); [|reflexivity].
    f_equal. now rewrite !append_assoc.
Qed.

Lemma length_append a b :
  String.length (a ++ b) = (String.length a + String.length b)%nat.
Proof. induction a as [ | c a IH]; cbn; [reflexivity | now rewrite IH]. Qed.

Lemma length_unlines hexes :
  Forall (fun h => String.length h = 4%nat) hexes ->
  String.length (unlines hexes) = (5 * List.length hexes)%nat.
Proof.
  induction 1 as [ | h hexes H _ IH]; [reflexivity|].
  cbn [unlines List.length]. rewrite length_append. cbn [String.length].
  rewrite H, IH. lia.
Qed.

Lemma hexes_length vals hexes :
  Forall (fun val => valid val = true) vals ->
  Forall2 (fun val hex_val => float_to_q15_hex val = Some hex_val)
    vals hexes ->
  Forall (fun h => String.length h = 4%nat) hexes.
Proof.
  intros V F. induction F as [ | val h vals hexes E _ IH]; [constructor|].
  inversion V as [ | ? ? V1 V2]; subst.
  constructor; [|now apply IH].
  destruct (float_to_q15_hex_total val V1) as (w & _ & _ & H).
  rewrite H in E. injection E as <-. reflexivity.
Qed.

(** Converting element by element and then flattening, as
    [save_sample_inputs] does, gives the lines of [save_q15_hex]. *)
Lemma hex_lines_map arr :
  hex_lines (map convert_to_fixed_point_q15 arr) = save_q15_hex arr.
Proof.
  induction arr as [ | val arr IH]; [reflexivity|].
  cbn [map hex_lines save_q15_hex]. unfold q15_hex.
  destruct (convert_to_fixed_point_q15 val); [|reflexivity].
  now rewrite IH.
Qed.

Lemma sequence_Some {A : Type} (l : list (option A)) r :
  Forall2 (fun o a => o = Some a) l r -> sequence l = Some r.
Proof.
  induction 1 as [ | o a l r -> _ IH]; [reflexivity|].
  cbn [sequence]. now rewrite IH.
Qed.

Lemma sequence_inv {A : Type} (l : list (option A)) r :
  sequence l = Some r -> Forall2 (fun o a => o = Some a) l r.
Proof.
  revert r. induction l as [ | [a | ] l IH]; intros r H; cbn in H.
  - injection H as <-. constructor.
  - destruct (sequence l) as [r' | ]; [|discriminate].
    injection H as <-. constructor; [reflexivity | now apply IH].
  - discriminate.
Qed.

End HexFileFacts.
Import HexFileFacts.

Module HexFileFacts2.
Import ExtractGanFiles HexFileFacts.

Local Open Scope string_scope.

(** The text of [save_q15_hex] for an array without NaN. *)
Lemma save_q15_hex_defined arr :
  Forall (fun val => valid val = true) arr ->
  Forall (fun val => is_nan val = false) arr ->
  exists text,
    save_q15_hex arr = Some text /\
    write_values arr "" = Some text /\
    String.length text = (5 * List.length arr)%nat.
Proof.
  intros V N.
  destruct (write_values_spec arr V "") as (hexes & F2 & E).
  pose proof (save_q15_hex_not_nan arr V N "") as S.
  rewrite E in S. cbn [append] in *.
  destruct (save_q15_hex arr) as [text | ]; [|discriminate].
  injection S as S. exists text. split; [reflexivity|].
  split; [now rewrite E, S|].
  rewrite <- S, (Forall2_length F2).
  apply length_unlines. exact (hexes_length arr hexes V F2).
Qed.

Lemma sample_hex_eq output_dir i sample :
  sample_hex output_dir i sample
  = save_q15_hex_file sample
      (output_dir ++ "input_sample_" ++ format_02d i ++ "_q15.hex").
Proof.
  unfold sample_hex, save_q15_hex_file, flatten.
  now rewrite <- concat_map, hex_lines_map.
Qed.

End HexFileFacts2.
Import HexFileFacts2.

Module SampleFacts.
Import ExtractGanFiles HexFileFacts HexFileFacts2.

Local Open Scope string_scope.

Lemma save_q15_hex_file_defined arr filename :
  Forall (fun val => valid val = true /\ is_nan val = false) (flatten arr) ->
  exists text,
    save_q15_hex_file arr filename = Some (Writes filename text) /\
    write_values (flatten arr) "" = Some text /\
    String.length text = (5 * List.length (flatten arr))%nat.
Proof.
  intros H. unfold save_q15_hex_file.
  destruct (save_q15_hex_defined (flatten arr)) as (text & -> & W & L).
  - eapply Forall_impl; [|exact H]. now intros v [V _].
  - eapply Forall_impl; [|exact H]. now intros v [_ N].
  - exists text. auto.
Qed.

Lemma written_paths_app a b :
  written_paths (a ++ b) = (written_paths a ++ written_paths b)%list.
Proof. apply flat_map_app. Qed.

Lemma written_paths_sample_txt output_dir (l : list (nat * matrix)) :
  written_paths (map (fun '(i, sample) => sample_txt output_dir i sample) l)
  = map (fun p => output_dir ++ "input_sample_" ++ format_02d (fst p)
                  ++ ".txt") l.
Proof.
  induction l as [ | [i s] l IH]; [reflexivity|].
  cbn [map written_paths flat_map sample_txt fst app] in *.
  now rewrite <- IH.
Qed.

Lemma written_paths_sample_hex output_dir (l : list (nat * matrix)) :
  forall r,
    sequence (map (fun '(i, sample) => sample_hex output_dir i sample) l)
    = Some r ->
    written_paths r
    = map (fun p => output_dir ++ "input_sample_" ++ format_02d (fst p)
                    ++ "_q15.hex") l.
Proof.
  induction l as [ | [i s] l IH]; intros r H; cbn [map sequence] in H.
  - injection H as <-. reflexivity.
  - unfold sample_hex at 1 in H.
    destruct (hex_lines _) as [text | ]; [|discriminate].
    destruct (sequence _) as [r' | ]; [|discriminate].
    injection H as <-. cbn [written_paths flat_map map fst app].
    f_equal. now apply IH.
Qed.

Lemma map_fst_enumerate {A : Type} (l : list A) :
  map fst (enumerate l) = seq 0 (List.length l).
Proof.
  unfold enumerate. generalize 0%nat.
  induction l as [ | a l IH]; intros k; [reflexivity|].
  cbn [List.length seq combine map fst]. now rewrite IH.
Qed.

(** The paths [save_sample_inputs] writes: the text files of all the
    samples, then their hexadecimal files. *)
Lemma save_sample_inputs_paths samples output_dir events :
  save_sample_inputs samples output_dir = Some events ->
  written_paths events
  = List.app
      (map (fun i => output_dir ++ "input_sample_" ++ format_02d i ++ ".txt")
         (seq 0 (List.length samples)))
      (map (fun i => output_dir ++ "input_sample_" ++ format_02d i
                     ++ "_q15.hex")
         (seq 0 (List.length samples))).
Proof.
  unfold save_sample_inputs.
  destruct (sequence _) as [hex_writes | ] eqn:E; [|discriminate].
  intros [= <-].
  change (written_paths (Prints ?l :: ?r)) with (written_paths r).
  rewrite !written_paths_app, written_paths_sample_txt,
    (written_paths_sample_hex _ _ _ E).
  cbn [written_paths flat_map]. rewrite app_nil_r.
  rewrite <- (map_fst_enumerate samples), !map_map. reflexivity.
Qed.

End SampleFacts.
Import SampleFacts.

(** ** The properties *)

Local Open Scope Z_scope.
Local Open Scope Q_scope.

(** *** The quantisers *)

(** X1. [float_to_q15_hex] is monotone: when [x <= y] holds for two
    doubles (infinities included), the signed integer computed for [x] is
    at most the one computed for [y]. *)
Theorem quantizer_monotone x y :
  valid x = true -> valid y = true -> SFleb x y = true ->
  exists nx ny,
    scale_round (clamp x) = Some nx /\ scale_round (clamp y) = Some ny /\
    q15_word x = Some (to_unsigned nx) /\
    q15_word y = Some (to_unsigned ny) /\ (nx <= ny)%Z.
Proof.
  intros Vx Vy L.
  destruct (quantizer_outputs x Vx) as (nx & _ & Ex & Wx & _).
  destruct (quantizer_outputs y Vy) as (ny & _ & Ey & Wy & _).
  exists nx, ny. repeat split; try assumption.
  exact (scale_round_mono x y Vx Vy L nx ny Ex Ey).
Qed.

Lemma quantizer_monotone_witness :
  valid f_minus_two = true /\ valid f_inf = true /\
  SFleb f_minus_two f_inf = true /\
  exists nx ny,
    scale_round (clamp f_minus_two) = Some nx /\
    scale_round (clamp f_inf) = Some ny /\
    q15_word f_minus_two = Some (to_unsigned nx) /\
    q15_word f_inf = Some (to_unsigned ny) /\ (nx <= ny)%Z.
Proof.
  split; [reflexivity|]. split; [reflexivity|]. split; [reflexivity|].
  apply (quantizer_monotone f_minus_two f_inf); reflexivity.
Defined.

(** X2. Quantising is idempotent: a finite double whose value is the
    number a word stands for (the word as a signed 16-bit integer over
    32768) is converted to that very word, by both scripts. *)
Theorem requantize_decoded_word y w :
  valid y = true -> is_finite y = true ->
  (0 <= w <= 65535)%Z -> SF2Q y == QuantizerSpec.decode w ->
  q15_word y = Some w /\
  float_to_q15_hex y = Some (QuantizerSpec.format_hex w) /\
  q15_hex y = Some (QuantizerSpec.format_hex w).
Proof. exact (quantize_decoded y w). Qed.

Lemma requantize_decoded_word_witness :
  valid f_minus_half = true /\ is_finite f_minus_half = true /\
  (0 <= 49152 <= 65535)%Z /\
  SF2Q f_minus_half == QuantizerSpec.decode 49152 /\
  q15_word f_minus_half = Some 49152%Z.
Proof.
  split; [reflexivity|]. split; [reflexivity|]. split; [lia|].
  split; [reflexivity|].
  apply (requantize_decoded_word f_minus_half 49152); try reflexivity. lia.
Defined.

(** X3. The quantisation error is at most half a step: the decoded word
    is within 1/65536 of the clamped input, and the bound is reached at
    1/65536. *)
Theorem q15_error_half_step x :
  valid x = true -> is_finite x = true ->
  exists s, float_to_q15_hex x = Some s /\
    Qabs (QuantizerSpec.decode (parse_hex s) - QuantizerSpec.clamp (SF2Q x))
    <= 1 # 65536 /\
    float_to_q15_hex f_1_65536 = Some "0000"%string /\
    Qabs (QuantizerSpec.decode (parse_hex "0000")
          - QuantizerSpec.clamp (SF2Q f_1_65536)) == 1 # 65536.
Proof.
  intros V F.
  pose proof (round_half_even_nearest
                (QuantizerSpec.clamp (SF2Q x) * 32768)) as N.
  eexists. split; [exact (float_to_q15_hex_quantize x V F)|].
  split; [|split; reflexivity].
  destruct (word_checked _ (quantize_range (SF2Q x))) as [_ ->].
  unfold QuantizerSpec.quantize.
  pose proof (spec_round_range (SF2Q x)) as G.
  change QuantizerSpec.encode with to_unsigned.
  rewrite <- handle_overflow_guard, handle_overflow_id by exact G.
  rewrite decode_to_unsigned by exact G.
  apply Qabs_Qle_condition in N. apply Qabs_Qle_condition.
  set (n := inject_Z (round_half_even (QuantizerSpec.clamp (SF2Q x) * 32768))) in *.
  set (v := QuantizerSpec.clamp (SF2Q x)) in *.
  destruct N as [N1 N2]. unfold Qdiv. change (/ 32768) with (1 # 32768).
  split; lra.
Qed.

Lemma q15_error_half_step_witness :
  valid f_3_65536 = true /\ is_finite f_3_65536 = true /\
  exists s, float_to_q15_hex f_3_65536 = Some s /\
    Qabs (QuantizerSpec.decode (parse_hex s)
          - QuantizerSpec.clamp (SF2Q f_3_65536)) <= 1 # 65536.
Proof.
  split; [reflexivity|]. split; [reflexivity|].
  destruct (q15_error_half_step f_3_65536 eq_refl eq_refl) as (s & E & B & _).
  exists s. split; [exact E | exact B].
Defined.

(** X4. The dead zone: a finite double is converted to 0000 exactly when
    its magnitude is at most 1/65536, both ends included. *)
Theorem q15_zero_iff x :
  valid x = true -> is_finite x = true ->
  float_to_q15_hex x = Some "0000"%string <-> Qabs (SF2Q x) <= 1 # 65536.
Proof.
  intros V F.
  destruct (quantizer_outputs x V) as (n & R & S & _ & H).
  rewrite (scale_round_spec x V F) in S. injection S as S.
  rewrite H, Qabs_Qle_condition, <- spec_clamp_small,
    <- round_half_even_zero_iff, S.
  pose proof (to_unsigned_range n R) as W.
  split.
  - intros E. apply to_unsigned_inj; [exact R | lia |].
    apply format_hex_inj; [exact W | apply to_unsigned_range; lia |].
    change (QuantizerSpec.format_hex (to_unsigned 0)) with "0000"%string.
    congruence.
  - now intros ->.
Qed.

Lemma q15_zero_iff_witness :
  valid f_1_65536 = true /\ is_finite f_1_65536 = true /\
  (float_to_q15_hex f_1_65536 = Some "0000"%string
   <-> Qabs (SF2Q f_1_65536) <= 1 # 65536).
Proof.
  split; [reflexivity|]. split; [reflexivity|].
  apply (q15_zero_iff f_1_65536); reflexivity.
Defined.

(** X5. Two finite doubles less than one step (1/32768) apart are
    converted to integers at most 1 apart; one step apart is not enough,
    as 1/65536 and 3/65536 show. *)
Theorem q15_close_inputs x y :
  valid x = true -> is_finite x = true ->
  valid y = true -> is_finite y = true ->
  Qabs (SF2Q x - SF2Q y) < 1 # 32768 ->
  exists nx ny,
    scale_round (clamp x) = Some nx /\ scale_round (clamp y) = Some ny /\
    (-1 <= nx - ny <= 1)%Z /\
    Qabs (SF2Q f_3_65536 - SF2Q f_1_65536) == 1 # 32768 /\
    scale_round (clamp f_3_65536) = Some 2%Z /\
    scale_round (clamp f_1_65536) = Some 0%Z.
Proof.
  intros Vx Fx Vy Fy D. apply Qabs_Qlt_condition in D.
  exists (round_half_even (QuantizerSpec.clamp (SF2Q x) * 32768)),
         (round_half_even (QuantizerSpec.clamp (SF2Q y) * 32768)).
  split; [exact (scale_round_spec x Vx Fx)|].
  split; [exact (scale_round_spec y Vy Fy)|].
  split; [|repeat split].
  apply round_half_even_close.
  pose proof (spec_clamp_close _ _ _ D). lra.
Qed.

Lemma q15_close_inputs_witness :
  valid f_1_65536 = true /\ is_finite f_1_65536 = true /\
  valid f_zero = true /\ is_finite f_zero = true /\
  Qabs (SF2Q f_1_65536 - SF2Q f_zero) < 1 # 32768 /\
  exists nx ny,
    scale_round (clamp f_1_65536) = Some nx /\
    scale_round (clamp f_zero) = Some ny /\ (-1 <= nx - ny <= 1)%Z.
Proof.
  split; [reflexivity|]. split; [reflexivity|]. split; [reflexivity|].
  split; [reflexivity|]. split; [reflexivity|].
  destruct (q15_close_inputs f_1_65536 f_zero eq_refl eq_refl eq_refl eq_refl
              eq_refl) as (nx & ny & Ex & Ey & B & _).
  exists nx, ny. repeat split; try assumption; apply B.
Defined.

(** X6. The sign bit: the word of a finite double has its top bit set
    (is at least 32768) exactly when the value is below -1/65536. *)
Theorem q15_sign_bit x :
  valid x = true -> is_finite x = true ->
  exists w, q15_word x = Some w /\
    ((32768 <= w)%Z <-> SF2Q x < - (1 # 65536)).
Proof.
  intros V F.
  destruct (quantizer_outputs x V) as (n & R & S & W & _).
  rewrite (scale_round_spec x V F) in S. injection S as S.
  exists (to_unsigned n). split; [exact W|].
  rewrite <- spec_clamp_negative, <- round_half_even_neg_iff, S.
  unfold to_unsigned. destruct (Z.ltb_spec n 0); lia.
Qed.

Lemma q15_sign_bit_witness :
  valid f_minus_half = true /\ is_finite f_minus_half = true /\
  exists w, q15_word f_minus_half = Some w /\
    ((32768 <= w)%Z <-> SF2Q f_minus_half < - (1 # 65536)).
Proof.
  split; [reflexivity|]. split; [reflexivity|].
  apply (q15_sign_bit f_minus_half); reflexivity.
Defined.

(** X7. The string holds the word: reading the returned string as
    hexadecimal gives back the word that was formatted, so two doubles get
    the same string exactly when they get the same word. *)
Theorem hex_string_holds_word x y :
  valid x = true -> valid y = true ->
  exists sx sy,
    float_to_q15_hex x = Some sx /\ float_to_q15_hex y = Some sy /\
    q15_word x = Some (parse_hex sx) /\ q15_word y = Some (parse_hex sy) /\
    (sx = sy <-> q15_word x = q15_word y).
Proof.
  intros Vx Vy.
  destruct (float_to_q15_hex_total x Vx) as (wx & Wx & Rx & Hx).
  destruct (float_to_q15_hex_total y Vy) as (wy & Wy & Ry & Hy).
  destruct (word_checked wx Rx) as [_ Px].
  destruct (word_checked wy Ry) as [_ Py].
  exists (QuantizerSpec.format_hex wx), (QuantizerSpec.format_hex wy).
  rewrite Px, Py, Wx, Wy. repeat split; try assumption.
  - intros E. f_equal. now apply format_hex_inj.
  - now intros [= ->].
Qed.

Lemma hex_string_holds_word_witness :
  valid f_nan = true /\ valid f_minus_two = true /\
  exists sx sy,
    float_to_q15_hex f_nan = Some sx /\
    float_to_q15_hex f_minus_two = Some sy /\
    q15_word f_nan = Some (parse_hex sx) /\
    q15_word f_minus_two = Some (parse_hex sy) /\
    (sx = sy <-> q15_word f_nan = q15_word f_minus_two).
Proof.
  split; [reflexivity|]. split; [reflexivity|].
  apply (hex_string_holds_word f_nan f_minus_two); reflexivity.
Defined.

(** X8. In [convert_to_fixed_point_q15] the conversion to [int16] never
    leaves the 16-bit range: for every double that is not a NaN the result
    is defined, lies in [-32768, 32767] and is the integer
    [float_to_q15_hex] computes before encoding. *)
Theorem convert_to_fixed_point_q15_in_range x :
  valid x = true -> is_nan x = false ->
  exists n, convert_to_fixed_point_q15 x = Some n /\
    (-32768 <= n <= 32767)%Z /\
    scale_round (clamp x) = Some n /\
    q15_hex x = float_to_q15_hex x.
Proof.
  intros V N. destruct (scale_round_clamp x V) as [E R].
  eexists. split; [exact (quantizers_round_alike_not_nan x V N)|].
  split; [exact R|]. split; [exact E|].
  exact (q15_hex_not_nan x V N).
Qed.

Lemma convert_to_fixed_point_q15_in_range_witness :
  valid f_inf = true /\ is_nan f_inf = false /\
  exists n, convert_to_fixed_point_q15 f_inf = Some n /\
    (-32768 <= n <= 32767)%Z /\
    scale_round (clamp f_inf) = Some n /\
    q15_hex f_inf = float_to_q15_hex f_inf.
Proof.
  split; [reflexivity|]. split; [reflexivity|].
  apply (convert_to_fixed_point_q15_in_range f_inf); reflexivity.
Defined.

Local Open Scope Z_scope.

(** ** Further properties of [convert_file] *)



Lemma convert_file_result parse_float input_path output_path lines :
  (forall tok val, parse_float tok = Some val -> valid val = true) ->
  exists hexes,
    Forall2 (fun val hex_val => float_to_q15_hex val = Some hex_val)
      (parsed parse_float (tokens lines)) hexes /\
    convert_file parse_float input_path output_path lines
    = Some {| out_file := unlines hexes;
              stdout :=
                map (fun tok => warning tok input_path)
                  (malformed parse_float (tokens lines))
                ++ ["Converted " ++ input_path ++ " -> " ++ output_path
                    ++ " (" ++ str_of_nat (List.length hexes)
                    ++ " values)"]%string |}.
Proof.
  intros P. unfold convert_file. rewrite read_file_spec.
  cbn [values printed].
  destruct (write_values_spec _ (parsed_valid parse_float (tokens lines) P) "")
    as (hexes & F2 & E).
  exists hexes. split; [exact F2|]. rewrite E. cbn [append].
  now rewrite (Forall2_length F2).
Qed.

Lemma convert_file_tokens parse_float input_path output_path l1 l2 :
  tokens l1 = tokens l2 ->
  convert_file parse_float input_path output_path l1
  = convert_file parse_float input_path output_path l2.
Proof. intros H. unfold convert_file. now rewrite !read_file_spec, H. Qed.



(** X10. [convert_file] sees the text of its input only through its
    whitespace-separated tokens: the tokens read line by line are the
    tokens of the whole text, so neither the line ends (LF, CR LF or CR)
    nor [strip] change the result, which is that of the text taken as
    one line. *)
Theorem convert_file_reads_whole_text parse_float input_path output_path
    text :
  tokens (file_lines text) = split text /\
  (forall line, split (strip line) = split line) /\
  convert_file parse_float input_path output_path (file_lines text)
  = convert_file parse_float input_path output_path [text].
Proof.
  split; [apply tokens_file_lines|]. split; [apply split_strip|].
  apply convert_file_tokens. rewrite tokens_file_lines.
  unfold tokens. cbn [flat_map]. now rewrite app_nil_r, split_strip.
Qed.

(** X11. What [np.savetxt] writes with ['%.8f'] reads back token by
    token: every printed number is one token, and the tokens
    [convert_file] reads from the text of an array are the printed
    elements of the array in the row-major order of [flatten]; writing
    the array as one row, as is done for bd3, gives the same tokens. *)
Theorem savetxt_tokens X :
  (forall x, is_token (fmt_8f x)) /\
  tokens (file_lines (savetxt X)) = map fmt_8f (flatten X) /\
  List.length (tokens (file_lines (savetxt X))) = List.length (flatten X) /\
  tokens (file_lines (savetxt (reshape_row X)))
  = tokens (file_lines (savetxt X)).
Proof.
  split; [apply fmt_8f_token|].
  rewrite !tokens_file_lines, !split_savetxt.
  split; [reflexivity|]. split; [apply length_map|].
  unfold reshape_row, flatten. cbn [List.concat]. now rewrite app_nil_r.
Qed.

(** ** Further properties of [main] in [convert_params_to_hex.py] *)










(** ** Further properties of [extract_gan_parameters.py] *)

(** X15. [load_trained_model] fails with [FileNotFoundError] when the
    file is missing, with the [KeyError] of the first key that is missing
    in the order Wg2, bg2, Wg3, bg3, Wd2, bd2, Wd3, bd3 when one is, and
    returns the eight arrays of the file otherwise. *)
Theorem load_trained_model_keys loadmat mat_file :
  fst (load_trained_model loadmat mat_file)
  = [("Loading trained model from " ++ mat_file ++ "...")%string] /\
  match loadmat mat_file with
  | None => snd (load_trained_model loadmat mat_file) = inl FileNotFoundError
  | Some data =>
      match find (is_missing data) mat_keys with
      | Some key =>
          snd (load_trained_model loadmat mat_file) = inl (KeyError key) /\
          data key = None
      | None =>
          exists params,
            snd (load_trained_model loadmat mat_file) = inr params /\
            map fst (param_arrays params) = mat_keys /\
            Forall (fun '(key, arr) => data key = Some arr)
              (param_arrays params)
      end
  end.
Proof.
  split; [reflexivity|].
  unfold load_trained_model. cbn [snd].
  destruct (loadmat mat_file) as [data | ]; [|reflexivity].
  unfold mat_keys, is_missing, get, bind. cbn [find].
  repeat match goal with
         | |- context [data ?k] =>
             let E := fresh "E" in
             destruct (data k) eqn:E; [|split; [reflexivity | exact E]]
         end.
  eexists. split; [reflexivity|]. split; [reflexivity|].
  repeat constructor; assumption.
Qed.

(** X16. For an array without NaN [save_q15_hex] writes a text of five
    characters per element (four digits and a newline), and it is the
    text the writing loop of [convert_file] produces for the same
    values. *)
Theorem save_q15_hex_text arr :
  Forall (fun val => valid val = true) arr ->
  Forall (fun val => is_nan val = false) arr ->
  exists text,
    save_q15_hex arr = Some text /\
    write_values arr "" = Some text /\
    String.length text = (5 * List.length arr)%nat.
Proof. exact (save_q15_hex_defined arr). Qed.

Lemma save_q15_hex_text_witness :
  Forall (fun val => valid val = true) [f_half; f_inf; f_minus_two] /\
  Forall (fun val => is_nan val = false) [f_half; f_inf; f_minus_two] /\
  exists text,
    save_q15_hex [f_half; f_inf; f_minus_two] = Some text /\
    write_values [f_half; f_inf; f_minus_two] "" = Some text /\
    String.length text = (5 * 3)%nat.
Proof.
  assert (V : Forall (fun val => valid val = true)
                [f_half; f_inf; f_minus_two]) by (repeat constructor).
  assert (N : Forall (fun val => is_nan val = false)
                [f_half; f_inf; f_minus_two]) by (repeat constructor).
  split; [exact V|]. split; [exact N|].
  exact (save_q15_hex_text [f_half; f_inf; f_minus_two] V N).
Defined.

(** X17. The two hexadecimal writers of the script agree:
    [save_sample_inputs], which converts the two-dimensional sample and
    then flattens it, writes for a sample what [save_q15_hex], which
    flattens and then converts, writes for the same array. *)
Theorem sample_hex_like_save_q15_hex output_dir i sample :
  sample_hex output_dir i sample
  = save_q15_hex_file sample
      (output_dir ++ "input_sample_" ++ format_02d i ++ "_q15.hex")%string.
Proof. exact (sample_hex_eq output_dir i sample). Qed.

(** X18. On parameters without NaN [save_parameters_to_q15_hex] writes
    eight files, [<key>_q15.hex] for the keys in the order Wg2, bg2, Wg3,
    bg3, Wd2, bd2, Wd3, bd3, between its two printed lines; each file
    holds the text the writing loop of [convert_file] produces for the
    elements of the array in row-major order, five characters per
    element. *)
Theorem save_parameters_to_q15_hex_files params output_dir :
  Forall (fun na =>
            Forall (fun val => valid val = true /\ is_nan val = false)
              (flatten (snd na)))
    (param_arrays params) ->
  exists texts,
    Forall2 (fun na text =>
               write_values (flatten (snd na)) "" = Some text /\
               String.length text
               = (5 * List.length (flatten (snd na)))%nat)
      (param_arrays params) texts /\
    save_parameters_to_q15_hex params output_dir
    = Some (Prints (String "010"
                     "=== Saving parameters in Q1.15 hex format ===")
            :: map (fun '(na, text) =>
                      Writes (output_dir ++ fst na ++ "_q15.hex")%string text)
                 (combine (param_arrays params) texts)
            ++ [Prints ("Q1.15 hex parameters saved to " ++ output_dir)%string]).
Proof.
  intros H. unfold param_arrays in H.
  repeat match goal with
         | H : Forall _ (_ :: _) |- _ =>
             let A := fresh "A" in
             apply Forall_cons_iff in H; destruct H as [A H];
             cbn [snd] in A
         end.
  unfold save_parameters_to_q15_hex.
  repeat match goal with
         | A : Forall _ (flatten ?arr)
           |- context [save_q15_hex_file ?arr ?f] =>
             let t := fresh "t" in
             let W := fresh "W" in
             let L := fresh "L" in
             destruct (save_q15_hex_file_defined arr f A) as (t & -> & W & L);
             clear A
         end.
  cbn [sequence].
  eexists [_; _; _; _; _; _; _; _]. split.
  - unfold param_arrays. repeat constructor; cbn [snd]; eassumption.
  - reflexivity.
Qed.

Lemma save_parameters_to_q15_hex_files_witness :
  Forall (fun na =>
            Forall (fun val => valid val = true /\ is_nan val = false)
              (flatten (snd na)))
    (param_arrays small_params) /\
  exists texts,
    Forall2 (fun na text =>
               write_values (flatten (snd na)) "" = Some text /\
               String.length text
               = (5 * List.length (flatten (snd na)))%nat)
      (param_arrays small_params) texts /\
    save_parameters_to_q15_hex small_params "./"
    = Some (Prints (String "010"
                     "=== Saving parameters in Q1.15 hex format ===")
            :: map (fun '(na, text) =>
                      Writes ("./" ++ fst na ++ "_q15.hex")%string text)
                 (combine (param_arrays small_params) texts)
            ++ [Prints ("Q1.15 hex parameters saved to " ++ "./")%string]).
Proof.
  assert (H : Forall (fun na =>
            Forall (fun val => valid val = true /\ is_nan val = false)
              (flatten (snd na)))
    (param_arrays small_params)) by (repeat constructor).
  split; [exact H|].
  exact (save_parameters_to_q15_hex_files small_params "./" H).
Defined.

(** X19. The scripts fit together: with ten samples, the files written
    by [save_parameters_to_txt] and [save_sample_inputs] are, in order,
    the 18 text files [main] of [convert_params_to_hex.py] looks for
    (under the output directory), followed by the ten hexadecimal files
    of the samples. *)
Theorem extract_writes_what_main_reads params samples output_dir events :
  List.length samples = 10%nat ->
  save_sample_inputs samples output_dir = Some events ->
  written_paths (save_parameters_to_txt params output_dir ++ events)
  = map (append output_dir) param_files
    ++ map (fun i => (output_dir ++ "input_sample_" ++ format_02d i
                      ++ "_q15.hex")%string) (seq 0 10).
Proof.
  intros L E.
  rewrite written_paths_app, (save_sample_inputs_paths _ _ _ E), L.
  reflexivity.
Qed.

Lemma extract_writes_what_main_reads_witness :
  List.length ten_samples = 10%nat /\
  exists events,
    save_sample_inputs ten_samples "" = Some events /\
    written_paths (save_parameters_to_txt small_params "" ++ events)
    = map (append "") param_files
      ++ map (fun i => ("" ++ "input_sample_" ++ format_02d i
                        ++ "_q15.hex")%string) (seq 0 10).
Proof.
  split; [reflexivity|].
  eexists. split; [vm_compute; reflexivity|].
  apply (extract_writes_what_main_reads small_params ten_samples "");
    [reflexivity | vm_compute; reflexivity].
Defined.

(** ** Every word is reached *)

Lemma grid_checked :
  Ranges.all_from
    (fun k => valid (q15_float k) && is_finite (q15_float k)
              && Qeq_bool (SF2Q (q15_float k)) (k # 32768))
    (-32768) (Z.to_nat 65536) = true.
Proof. vm_cast_no_check (eq_refl true). Qed.

Lemma q15_float_spec k :
  -32768 <= k <= 32767 ->
  valid (q15_float k) = true /\ is_finite (q15_float k) = true /\
  (SF2Q (q15_float k) == inject_Z k / 32768)%Q.
Proof.
  intros H. pose proof (all_from_spec _ _ _ grid_checked k) as C.
  cbv beta in C. specialize (C ltac:(lia)).
  rewrite !andb_true_iff in C. destruct C as [[V F] Q].
  split; [exact V|]. split; [exact F|].
  apply Qeq_bool_iff in Q. rewrite Q. rewrite (Qmake_Qdiv k 32768).
  reflexivity.
Qed.

(** X20. Every 16-bit word is reached: for each word in [0, 65535] there
    is a finite double, the one of value (signed word)/32768, that both
    scripts convert to the four digits of that word. *)
Theorem every_word_is_reached w :
  0 <= w <= 65535 ->
  let x := q15_float (if 32768 <=? w then w - 65536 else w) in
  valid x = true /\ is_finite x = true /\
  q15_word x = Some w /\
  float_to_q15_hex x = Some (QuantizerSpec.format_hex w) /\
  q15_hex x = Some (QuantizerSpec.format_hex w).
Proof.
  intros W x.
  assert (K : -32768 <= (if 32768 <=? w then w - 65536 else w) <= 32767)
    by (destruct (Z.leb_spec 32768 w); lia).
  destruct (q15_float_spec _ K) as (V & F & E). fold x in V, F, E.
  split; [exact V|]. split; [exact F|].
  exact (quantize_decoded x w V F W E).
Qed.

Lemma every_word_is_reached_witness :
  0 <= 65535 <= 65535 /\
  float_to_q15_hex (q15_float (-1)) = Some "FFFF"%string.
Proof.
  split; [lia|].
  apply (every_word_is_reached 65535). lia.
Defined.

(** ** From the text files to the hexadecimal files *)

Lemma parsed_printed parse_float (reparse : float -> float) vals :
  Forall (fun x => parse_float (fmt_8f x) = Some (reparse x)) vals ->
  parsed parse_float (map fmt_8f vals) = map reparse vals /\
  malformed parse_float (map fmt_8f vals) = [].
Proof.
  induction 1 as [ | x vals E _ [IH1 IH2]]; [split; reflexivity|].
  cbn [map parsed malformed].
  destruct (fmt_8f_token x) as [Hne _].
  destruct (fmt_8f x) as [ | c t] eqn:Ef; [contradiction|].
  rewrite E, IH1, IH2. split; reflexivity.
Qed.

(** X21. From end to end: when [convert_file] reads the text
    [np.savetxt] wrote for an array, and [float] reads every printed
    number, no warning is printed and the output holds one line per
    element of the array, in the row-major order of [flatten]: line k is
    [float_to_q15_hex] of the number read back for element k. *)
Theorem convert_file_on_savetxt parse_float reparse input_path output_path X :
  (forall tok val, parse_float tok = Some val -> valid val = true) ->
  Forall (fun x => parse_float (fmt_8f x) = Some (reparse x)) (flatten X) ->
  exists hexes,
    Forall2 (fun x hex_val => float_to_q15_hex (reparse x) = Some hex_val)
      (flatten X) hexes /\
    convert_file parse_float input_path output_path (file_lines (savetxt X))
    = Some {| out_file := unlines hexes;
              stdout :=
                [("Converted " ++ input_path ++ " -> " ++ output_path
                  ++ " (" ++ str_of_nat (List.length (flatten X))
                  ++ " values)")%string] |}.
Proof.
  intros P R.
  destruct (convert_file_result parse_float input_path output_path
              (file_lines (savetxt X)) P) as (hexes & F2 & E).
  rewrite tokens_file_lines, split_savetxt in F2, E.
  destruct (parsed_printed parse_float reparse (flatten X) R) as [Pp Pm].
  rewrite Pp in F2. rewrite Pm in E. cbn [map app] in E.
  exists hexes. split.
  - clear - F2. revert hexes F2.
    induction (flatten X) as [ | x l IH]; intros hexes F2;
      inversion F2; subst; constructor; auto.
  - rewrite E. do 4 f_equal.
    rewrite <- (Forall2_length F2). now rewrite length_map.
Qed.

Lemma convert_file_on_savetxt_witness :
  (forall tok val, parse_printed tok = Some val -> valid val = true) /\
  Forall (fun x => parse_printed (fmt_8f x) = Some ((fun v => v) x))
    (flatten [[f_half; f_minus_half]; [f_1_5; f_half]]) /\
  exists hexes,
    Forall2 (fun x hex_val => float_to_q15_hex x = Some hex_val)
      (flatten [[f_half; f_minus_half]; [f_1_5; f_half]]) hexes /\
    convert_file parse_printed "in.txt" "out.txt"
      (file_lines (savetxt [[f_half; f_minus_half]; [f_1_5; f_half]]))
    = Some {| out_file := unlines hexes;
              stdout :=
                [("Converted " ++ "in.txt" ++ " -> " ++ "out.txt"
                  ++ " (" ++ str_of_nat 4 ++ " values)")%string] |}.
Proof.
  assert (P : forall tok val,
             parse_printed tok = Some val -> valid val = true).
  { intros tok val. unfold parse_printed.
    destruct (String.eqb tok "0.50000000"); [intros [= <-]; reflexivity|].
    destruct (String.eqb tok "-0.50000000"); [intros [= <-]; reflexivity|].
    destruct (String.eqb tok "1.50000000"); [intros [= <-]; reflexivity|].
    discriminate. }
  assert (R : Forall (fun x => parse_printed (fmt_8f x) = Some ((fun v => v) x))
                (flatten [[f_half; f_minus_half]; [f_1_5; f_half]]))
    by (repeat constructor).
  split; [exact P|]. split; [exact R|].
  exact (convert_file_on_savetxt parse_printed (fun v => v) "in.txt" "out.txt"
           [[f_half; f_minus_half]; [f_1_5; f_half]] P R).
Defined.
